(** * prodhype/ecs: a shallow embedding of the Entity-Component-System runtime

    The Python package [ecs] is embedded module by module:
    - [ecs/types.py], [ecs/errors.py]: identifiers, type tags, exceptions;
    - [ecs/entity.py]:   [EntityManager];
    - [ecs/storage.py]:  [ComponentStore];
    - [ecs/resources.py]: [Resources];
    - [ecs/system.py]:   [System] and [Scheduler];
    - [ecs/world.py]:    [World].

    Python objects are mutable; every method is embedded as a function that
    takes the receiver's state and returns the state after the call together
    with what the call produced: a value, or the exception it raised.  A
    call that raises still returns the state it left behind, so that partial
    mutation is observable in the model exactly as it is in Python. *)

From Stdlib Require Import ZArith List Bool Lia.
From Stdlib Require Import Floats.PrimFloat.
From stdpp Require Import gmap strings list fin_maps fin_sets sorting.

Local Open Scope Z_scope.

(** ** ecs/types.py *)

(** [EntityId = int]: Python integers are unbounded. *)
Abbreviation EntityId := Z.

(** [ComponentType = Type[Any]]: a class object, used only as a dictionary
    key.  Classes are told apart by name; [NoneType] is the class of [None]. *)
Inductive ComponentType : Type :=
| NoneType
| Class (name : string).

(** [ComponentInstance = Any]: an arbitrary Python value.  [PyNone] is
    Python's [None]; every other value is an instance of a named class
    carrying its field values. *)
Inductive ComponentInstance : Type :=
| PyNone
| Object (cls : string) (fields : list Z).

(** Python's builtin [type(component)]. *)
Definition type (component : ComponentInstance) : ComponentType :=
  match component with
  | PyNone => NoneType
  | Object cls _ => Class cls
  end.

#[global] Instance ComponentType_eq_dec : EqDecision ComponentType.
Proof. solve_decision. Defined.

#[global] Instance ComponentType_countable : Countable ComponentType.
Proof.
  refine (inj_countable'
            (fun c => match c with NoneType => None | Class n => Some n end)
            (fun o => match o with None => NoneType | Some n => Class n end) _).
  intros []; reflexivity.
Defined.

#[global] Instance ComponentInstance_eq_dec : EqDecision ComponentInstance.
Proof. solve_decision. Defined.

(** ** ecs/errors.py *)

(** The three subclasses of [ECSException], and the builtin [KeyError] that
    [Resources.get] lets escape from its dictionary subscript. *)
Inductive ECSException : Type :=
| EntityNotFound
| ComponentNotFound
| ComponentAlreadyExists
| KeyError.

(** What a call produced: it returned a value or it raised. *)
Inductive Outcome (A : Type) : Type :=
| Returned (value : A)
| Raised (exc : ECSException).
Arguments Returned {A} value.
Arguments Raised {A} exc.

(** ** ecs/entity.py *)

Module EntityManager.

(** [__slots__ = ("_alive", "_free", "_next_id")].  [_free] is a Python
    list in Python order: [append] adds at the end, [pop] takes the end. *)
Record t : Type := Build {
  _alive : gset Z;
  _free : list Z;
  _next_id : Z
}.

Definition __init__ : t :=
  {| _alive := ∅; _free := []; _next_id := 1 |}.

(** [list.pop()] on a non-empty list: the last element and the rest. *)
Definition list_pop (l : list Z) : option (list Z * Z) :=
  match last l with
  | Some x => Some (removelast l, x)
  | None => None
  end.

Definition create (self : t) : t * Z :=
  match list_pop (_free self) with
  | Some (rest, eid) =>
      ({| _alive := {[eid]} ∪ _alive self; _free := rest;
          _next_id := _next_id self |}, eid)
  | None =>
      let eid := _next_id self in
      ({| _alive := {[eid]} ∪ _alive self; _free := _free self;
          _next_id := _next_id self + 1 |}, eid)
  end.

Definition destroy (self : t) (entity : Z) : t * bool :=
  if decide (entity ∈ _alive self) then
    ({| _alive := _alive self ∖ {[entity]};
        _free := _free self ++ [entity];
        _next_id := _next_id self |}, true)
  else (self, false).

Definition is_alive (self : t) (entity : Z) : bool :=
  bool_decide (entity ∈ _alive self).

Definition __len__ (self : t) : nat := size (_alive self).

(** [iter(self._alive.copy())]: a snapshot, in the set's own order. *)
Definition __iter__ (self : t) : list Z := elements (_alive self).

(** The allocator states a program can reach: [create] and [destroy] are
    the only methods that write the three slots. *)
Inductive reachable : t -> Prop :=
| reachable_init : reachable __init__
| reachable_create self : reachable self -> reachable (fst (create self))
| reachable_destroy self entity :
    reachable self -> reachable (fst (destroy self entity)).

(** Every id handed out so far is alive or pooled, those are exactly the
    ids [1 .. _next_id - 1], and no id is pooled twice or pooled while
    alive. *)
Definition allocator_inv (self : t) : Prop :=
  1 <= _next_id self
  /\ (forall x, 1 <= x < _next_id self <-> x ∈ _alive self \/ x ∈ _free self)
  /\ NoDup (_free self)
  /\ (forall x, x ∈ _alive self -> x ∉ _free self).

End EntityManager.

(** ** ecs/storage.py *)

(** [dict.setdefault(key, default)]: the dictionary after the call and the
    value now stored under [key]. *)
Definition setdefault `{Countable K} {V : Type}
    (d : gmap K V) (key : K) (default : V) : gmap K V * V :=
  match d !! key with
  | Some v => (d, v)
  | None => (<[key := default]> d, default)
  end.

Module ComponentStore.

(** [__slots__ = ("_by_component", "_index_by_component",
    "_index_by_entity")] with the types of [types.py]:
    [StoreByComponent], [IndexByComponent], [IndexByEntity]. *)
Record t : Type := Build {
  _by_component : gmap ComponentType (gmap Z ComponentInstance);
  _index_by_component : gmap ComponentType (gset Z);
  _index_by_entity : gmap Z (gset ComponentType)
}.

Definition __init__ : t :=
  {| _by_component := ∅; _index_by_component := ∅; _index_by_entity := ∅ |}.

(** [index.setdefault(key, set()).add(x)]: the set stored under [key] is
    mutated in place. *)
Definition index_add `{Countable K} `{Countable X}
    (index : gmap K (gset X)) (key : K) (x : X) : gmap K (gset X) :=
  let '(index', s) := setdefault index key ∅ in
  <[key := {[x]} ∪ s]> index'.

(** The index half of [remove]:
    [s = index.get(key); if s: s.discard(x); if not s: index.pop(key, None)]. *)
Definition index_discard `{Countable K} `{Countable X}
    (index : gmap K (gset X)) (key : K) (x : X) : gmap K (gset X) :=
  match index !! key with
  | Some s =>
      if decide (s = ∅) then index
      else
        let s' := s ∖ {[x]} in
        if decide (s' = ∅) then delete key index
        else <[key := s']> index
  | None => index
  end.

Definition add (self : t) (entity : Z) (component : ComponentInstance)
    : t * Outcome unit :=
  let ctype := type component in
  let '(by_component, entities) := setdefault (_by_component self) ctype ∅ in
  if decide (is_Some (entities !! entity)) then
    ({| _by_component := by_component;
        _index_by_component := _index_by_component self;
        _index_by_entity := _index_by_entity self |},
     Raised ComponentAlreadyExists)
  else
    ({| _by_component := <[ctype := <[entity := component]> entities]> by_component;
        _index_by_component := index_add (_index_by_component self) ctype entity;
        _index_by_entity := index_add (_index_by_entity self) entity ctype |},
     Returned tt).

Definition upsert (self : t) (entity : Z) (component : ComponentInstance)
    : t * Outcome unit :=
  let ctype := type component in
  let '(by_component, entities) := setdefault (_by_component self) ctype ∅ in
  ({| _by_component := <[ctype := <[entity := component]> entities]> by_component;
      _index_by_component := index_add (_index_by_component self) ctype entity;
      _index_by_entity := index_add (_index_by_entity self) entity ctype |},
   Returned tt).

Definition remove (self : t) (entity : Z) (ctype : ComponentType)
    : t * Outcome unit :=
  match _by_component self !! ctype with
  | None => (self, Raised ComponentNotFound)
  | Some entities =>
      if decide (entities = ∅) then (self, Raised ComponentNotFound)
      else if decide (is_Some (entities !! entity)) then
        let entities' := delete entity entities in
        ({| _by_component :=
              if decide (entities' = ∅) then delete ctype (_by_component self)
              else <[ctype := entities']> (_by_component self);
            _index_by_component :=
              index_discard (_index_by_component self) ctype entity;
            _index_by_entity :=
              index_discard (_index_by_entity self) entity ctype |},
         Returned tt)
      else (self, Raised ComponentNotFound)
  end.

(** The [for ctype in ctypes] loop of [remove_all_for_entity]; a raising
    [remove] leaves the loop with the state reached so far. *)
Fixpoint remove_each (self : t) (entity : Z) (ctypes : list ComponentType)
    (removed : Z) : t * Outcome Z :=
  match ctypes with
  | [] => (self, Returned removed)
  | ctype :: rest =>
      match remove self entity ctype with
      | (self', Returned _) => remove_each self' entity rest (removed + 1)
      | (self', Raised exc) => (self', Raised exc)
      end
  end.

Definition remove_all_for_entity (self : t) (entity : Z) : t * Outcome Z :=
  let ctypes := elements (default ∅ (_index_by_entity self !! entity)) in
  remove_each self entity ctypes 0.

(** [Optional[ComponentInstance]]: the absent result is [None]. *)
Definition get (self : t) (entity : Z) (ctype : ComponentType)
    : ComponentInstance :=
  default PyNone (default ∅ (_by_component self !! ctype) !! entity).

Definition has (self : t) (entity : Z) (ctype : ComponentType) : bool :=
  bool_decide (is_Some (default ∅ (_by_component self !! ctype) !! entity)).

Definition entities_with (self : t) (ctype : ComponentType) : gset Z :=
  default ∅ (_index_by_component self !! ctype).

(** The loop [for s in sets[1:]: result &= s; if not result: break]. *)
Fixpoint intersect_all (result : gset Z) (sets : list (gset Z)) : gset Z :=
  match sets with
  | [] => result
  | s :: rest =>
      let result' := result ∩ s in
      if decide (result' = ∅) then result' else intersect_all result' rest
  end.

(** [iter(result)] is embedded as the list of the elements the iterator
    will produce, in the set's own order. *)
Definition all_of (self : t) (ctypes : list ComponentType) : list Z :=
  match ctypes with
  | [] => []
  | _ :: _ =>
      match map (entities_with self) ctypes with
      | [] => []
      | first :: others => elements (intersect_all first others)
      end
  end.

Definition component (self : t) (ctype : ComponentType)
    : t * gmap Z ComponentInstance :=
  let '(by_component, entities) := setdefault (_by_component self) ctype ∅ in
  ({| _by_component := by_component;
      _index_by_component := _index_by_component self;
      _index_by_entity := _index_by_entity self |}, entities).

Definition clear (self : t) : t :=
  {| _by_component := ∅; _index_by_component := ∅; _index_by_entity := ∅ |}.

(** *** The three facets of "entity carries ctype" *)

(** What the by-component-then-entity mapping holds for a pair, if
    anything: [_by_component[ctype][entity]]. *)
Definition instance_at (self : t) (entity : Z) (ctype : ComponentType)
    : option ComponentInstance :=
  default ∅ (_by_component self !! ctype) !! entity.

Definition in_store (self : t) (entity : Z) (ctype : ComponentType) : Prop :=
  is_Some (instance_at self entity ctype).

Definition in_component_index (self : t) (entity : Z) (ctype : ComponentType)
    : Prop :=
  entity ∈ default ∅ (_index_by_component self !! ctype).

Definition in_entity_index (self : t) (entity : Z) (ctype : ComponentType)
    : Prop :=
  ctype ∈ default ∅ (_index_by_entity self !! entity).

Definition consistent (self : t) : Prop :=
  forall entity ctype,
    (in_store self entity ctype <-> in_component_index self entity ctype)
    /\ (in_component_index self entity ctype
        <-> in_entity_index self entity ctype).

(** *** Sequences of mutating calls *)

Inductive Op : Type :=
| OpAdd (entity : Z) (component : ComponentInstance)
| OpUpsert (entity : Z) (component : ComponentInstance)
| OpRemove (entity : Z) (ctype : ComponentType)
| OpRemoveAllForEntity (entity : Z)
| OpClear.

(** The store a call leaves behind, whether it returned or raised. *)
Definition run_op (self : t) (op : Op) : t :=
  match op with
  | OpAdd entity component => fst (add self entity component)
  | OpUpsert entity component => fst (upsert self entity component)
  | OpRemove entity ctype => fst (remove self entity ctype)
  | OpRemoveAllForEntity entity => fst (remove_all_for_entity self entity)
  | OpClear => clear self
  end.

Definition run_ops (self : t) (ops : list Op) : t :=
  fold_left run_op ops self.

End ComponentStore.

(** ** ecs/resources.py *)

Module Resources.

Record t : Type := Build {
  _data : gmap ComponentType ComponentInstance
}.

Definition __init__ : t := {| _data := ∅ |}.

Definition put (self : t) (resource : ComponentInstance) : t :=
  {| _data := <[type resource := resource]> (_data self) |}.

Definition get (self : t) (typ : ComponentType) : Outcome ComponentInstance :=
  match _data self !! typ with
  | Some v => Returned v
  | None => Raised KeyError
  end.

Definition try_get (self : t) (typ : ComponentType) : ComponentInstance :=
  default PyNone (_data self !! typ).

(** [self._data.pop(typ, None) is not None] *)
Definition remove (self : t) (typ : ComponentType) : t * bool :=
  ({| _data := delete typ (_data self) |},
   bool_decide (default PyNone (_data self !! typ) ≠ PyNone)).

Definition clear (self : t) : t := {| _data := ∅ |}.

End Resources.

(** ** ecs/system.py *)

(** A [System] object.  [priority] is the attribute set by [__init__];
    [sys_id] stands for the object's identity, which is what [in] and
    [list.remove] compare ([System] defines no [__eq__]). *)
Record System : Type := MkSystem {
  sys_id : nat;
  priority : Z
}.

#[global] Instance System_eq_dec : EqDecision System.
Proof. solve_decision. Defined.

(** The hooks of a system are code of the caller.  A call of a hook is
    embedded as an observable event; what the hook's body does is outside
    this model (the hooks of the base class [System] do nothing). *)
Inductive HookCall : Type :=
| CallStart (sys : System)
| CallStop (sys : System)
| CallUpdate (sys : System) (dt : float).

(** [list.sort(key=lambda s: s.priority, reverse=True)].  Python's sort is
    stable, also with [reverse=True]: elements with equal keys keep their
    relative order.  [insert_by_priority s l] places [s], which preceded all
    of [l] in the unsorted list, before the first element whose priority is
    not greater than its own. *)
Fixpoint insert_by_priority (s : System) (l : list System) : list System :=
  match l with
  | [] => [s]
  | x :: rest =>
      if decide (priority s < priority x)
      then x :: insert_by_priority s rest
      else s :: l
  end.

Definition sort_by_priority_reverse (l : list System) : list System :=
  foldr insert_by_priority [] l.

(** [list.remove(x)]: drops the first element equal to [x]. *)
Fixpoint list_remove (x : System) (l : list System) : list System :=
  match l with
  | [] => []
  | y :: rest => if decide (y = x) then rest else y :: list_remove x rest
  end.

(** The [World] a [Scheduler] holds in [_world_ref]: there is one world per
    scheduler, so the reference carries no information beyond being set. *)
Inductive WorldRef : Type := ThisWorld.

Module Scheduler.

(** [__slots__ = ("_systems", "_started", "_world_ref")] *)
Record t : Type := Build {
  _systems : list System;
  _started : bool;
  _world_ref : option WorldRef
}.

Definition __init__ : t :=
  {| _systems := []; _started := false; _world_ref := None |}.

Definition add (self : t) (system : System) : t * list HookCall :=
  let systems := sort_by_priority_reverse (_systems self ++ [system]) in
  ({| _systems := systems; _started := _started self;
      _world_ref := _world_ref self |},
   if _started self && bool_decide (is_Some (_world_ref self))
   then [CallStart system] else []).

Definition remove (self : t) (system : System) : t * list HookCall * bool :=
  if decide (system ∈ _systems self) then
    ({| _systems := list_remove system (_systems self);
        _started := _started self; _world_ref := _world_ref self |},
     if _started self && bool_decide (is_Some (_world_ref self))
     then [CallStop system] else [],
     true)
  else (self, [], false).

Definition start (self : t) (world : WorldRef) : t * list HookCall :=
  ({| _systems := _systems self; _started := true;
      _world_ref := Some world |},
   map CallStart (_systems self)).

Definition stop (self : t) (world : WorldRef) : t * list HookCall :=
  ({| _systems := _systems self; _started := false; _world_ref := None |},
   map CallStop (rev (_systems self))).

Definition update (self : t) (world : WorldRef) (dt : float)
    : t * list HookCall :=
  (self, map (fun sys => CallUpdate sys dt) (_systems self)).

End Scheduler.

(** ** ecs/world.py *)

(** The generator object [World.view] returns.  The body of a Python
    generator function does not run when the function is called: it runs
    from the first [next()], up to the first [yield].
    - [Unstarted]: created, body not entered; it only holds the closure's
      [component_types].
    - [Suspended]: stopped at [yield] inside the [for entity in ...] loop;
      [remaining] is what is left of the iterator [all_of] returned.
    - [Finished]: the body returned or raised. *)
Inductive Generator : Type :=
| Unstarted (component_types : list ComponentType)
| Suspended (component_types : list ComponentType) (remaining : list Z)
| Finished.

(** One item of a view: [(entity, *components)]. *)
Abbreviation ViewItem := (Z * list ComponentInstance)%type.

Module World.

(** [__slots__ = ("entities", "_store", "_scheduler", "resources",
    "_started")] *)
Record t : Type := Build {
  entities : EntityManager.t;
  _store : ComponentStore.t;
  _scheduler : Scheduler.t;
  resources : Resources.t;
  _started : bool
}.

Definition __init__ : t :=
  {| entities := EntityManager.__init__;
     _store := ComponentStore.__init__;
     _scheduler := Scheduler.__init__;
     resources := Resources.__init__;
     _started := false |}.

Definition set_entities (self : t) (em : EntityManager.t) : t :=
  {| entities := em; _store := _store self; _scheduler := _scheduler self;
     resources := resources self; _started := _started self |}.

Definition set_store (self : t) (store : ComponentStore.t) : t :=
  {| entities := entities self; _store := store;
     _scheduler := _scheduler self; resources := resources self;
     _started := _started self |}.

Definition set_scheduler (self : t) (sch : Scheduler.t) (started : bool) : t :=
  {| entities := entities self; _store := _store self; _scheduler := sch;
     resources := resources self; _started := started |}.

Definition set_resources (self : t) (res : Resources.t) : t :=
  {| entities := entities self; _store := _store self;
     _scheduler := _scheduler self; resources := res;
     _started := _started self |}.

(** *** Lifecycle *)

Definition start (self : t) : t * list HookCall :=
  if negb (_started self) then
    let '(sch, calls) := Scheduler.start (_scheduler self) ThisWorld in
    (set_scheduler self sch true, calls)
  else (self, []).

Definition stop (self : t) : t * list HookCall :=
  if _started self then
    let '(sch, calls) := Scheduler.stop (_scheduler self) ThisWorld in
    (set_scheduler self sch false, calls)
  else (self, []).

(** *** Entity API *)

Definition create_entity (self : t) : t * Z :=
  let '(em, eid) := EntityManager.create (entities self) in
  (set_entities self em, eid).

Definition destroy_entity (self : t) (entity : Z) : t * Outcome unit :=
  let '(em, ok) := EntityManager.destroy (entities self) entity in
  let self := set_entities self em in
  if negb ok then (self, Raised EntityNotFound)
  else
    match ComponentStore.remove_all_for_entity (_store self) entity with
    | (store, Returned _) => (set_store self store, Returned tt)
    | (store, Raised exc) => (set_store self store, Raised exc)
    end.

Definition is_alive (self : t) (entity : Z) : bool :=
  EntityManager.is_alive (entities self) entity.

(** *** Component API *)

Definition _require_alive (self : t) (entity : Z) : Outcome unit :=
  if negb (EntityManager.is_alive (entities self) entity)
  then Raised EntityNotFound
  else Returned tt.

Definition add_component (self : t) (entity : Z)
    (component : ComponentInstance) : t * Outcome unit :=
  match _require_alive self entity with
  | Raised exc => (self, Raised exc)
  | Returned _ =>
      let '(store, out) := ComponentStore.add (_store self) entity component in
      (set_store self store, out)
  end.

Definition upsert_component (self : t) (entity : Z)
    (component : ComponentInstance) : t * Outcome unit :=
  match _require_alive self entity with
  | Raised exc => (self, Raised exc)
  | Returned _ =>
      let '(store, out) := ComponentStore.upsert (_store self) entity component in
      (set_store self store, out)
  end.

Definition remove_component (self : t) (entity : Z) (ctype : ComponentType)
    : t * Outcome unit :=
  match _require_alive self entity with
  | Raised exc => (self, Raised exc)
  | Returned _ =>
      let '(store, out) := ComponentStore.remove (_store self) entity ctype in
      (set_store self store, out)
  end.

Definition get_component (self : t) (entity : Z) (ctype : ComponentType)
    : t * Outcome ComponentInstance :=
  match _require_alive self entity with
  | Raised exc => (self, Raised exc)
  | Returned _ =>
      let comp := ComponentStore.get (_store self) entity ctype in
      (self, Returned comp)
  end.

Definition require_component (self : t) (entity : Z) (ctype : ComponentType)
    : t * Outcome ComponentInstance :=
  match _require_alive self entity with
  | Raised exc => (self, Raised exc)
  | Returned _ =>
      let comp := ComponentStore.get (_store self) entity ctype in
      if decide (comp = PyNone) then (self, Raised ComponentNotFound)
      else (self, Returned comp)
  end.

Definition has_component (self : t) (entity : Z) (ctype : ComponentType)
    : t * Outcome bool :=
  match _require_alive self entity with
  | Raised exc => (self, Raised exc)
  | Returned _ => (self, Returned (ComponentStore.has (_store self) entity ctype))
  end.

(** *** Query API *)

(** [component_list = [c1]], then each of [c2..c5] that is not [None],
    then [extra]. *)
Definition component_list (c1 : ComponentType)
    (c2 c3 c4 c5 : option ComponentType) (extra : list ComponentType)
    : list ComponentType :=
  c1 :: omap id [c2; c3; c4; c5] ++ extra.

(** Calling [view] builds the tuple of types and returns [generator()]:
    a generator object that has not run yet.  Nothing of [self] is read. *)
Definition view (self : t) (c1 : ComponentType)
    (c2 c3 c4 c5 : option ComponentType) (extra : list ComponentType)
    : Generator :=
  Unstarted (component_list c1 c2 c3 c4 c5 extra).

(** The inner loop [for ctype in component_types] of the generator. *)
Fixpoint fetch (self : t) (entity : Z) (component_types : list ComponentType)
    : Outcome (list ComponentInstance) :=
  match component_types with
  | [] => Returned []
  | ctype :: rest =>
      let comp := ComponentStore.get (_store self) entity ctype in
      if decide (comp = PyNone) then Raised ComponentNotFound
      else
        match fetch self entity rest with
        | Returned comps => Returned (comp :: comps)
        | Raised exc => Raised exc
        end
  end.

(** Run the generator body from the loop header to the next [yield],
    [return] or [raise]; [Returned None] is the end of the sequence
    ([StopIteration]). *)
Definition resume (self : t) (component_types : list ComponentType)
    (remaining : list Z) : Generator * Outcome (option ViewItem) :=
  match remaining with
  | [] => (Finished, Returned None)
  | entity :: rest =>
      match fetch self entity component_types with
      | Returned comps =>
          (Suspended component_types rest, Returned (Some (entity, comps)))
      | Raised exc => (Finished, Raised exc)
      end
  end.

(** [next(gen)], with [self] the world as it is when [next] is called. *)
Definition next (self : t) (gen : Generator)
    : Generator * Outcome (option ViewItem) :=
  match gen with
  | Unstarted component_types =>
      resume self component_types
        (ComponentStore.all_of (_store self) component_types)
  | Suspended component_types remaining =>
      resume self component_types remaining
  | Finished => (Finished, Returned None)
  end.

(** Consuming what is left of the loop in one go ([list(gen)], a [for]
    loop whose body leaves the world alone): the items yielded, and how
    the sequence stopped. *)
Fixpoint drain (self : t) (component_types : list ComponentType)
    (remaining : list Z) : list ViewItem * Outcome unit :=
  match remaining with
  | [] => ([], Returned tt)
  | entity :: rest =>
      match fetch self entity component_types with
      | Returned comps =>
          let '(items, out) := drain self component_types rest in
          ((entity, comps) :: items, out)
      | Raised exc => ([], Raised exc)
      end
  end.

Definition consume (self : t) (gen : Generator)
    : list ViewItem * Outcome unit :=
  match gen with
  | Unstarted component_types =>
      drain self component_types
        (ComponentStore.all_of (_store self) component_types)
  | Suspended component_types remaining =>
      drain self component_types remaining
  | Finished => ([], Returned tt)
  end.

Definition entities_with (self : t) (ctypes : list ComponentType) : list Z :=
  ComponentStore.all_of (_store self) ctypes.

(** *** Systems API *)

Definition add_system (self : t) (system : System) : t * list HookCall :=
  let '(sch, calls) := Scheduler.add (_scheduler self) system in
  (set_scheduler self sch (_started self),
   calls ++ (if _started self then [CallStart system] else [])).

Definition remove_system (self : t) (system : System)
    : t * list HookCall * bool :=
  let '(sch, calls, found) := Scheduler.remove (_scheduler self) system in
  (set_scheduler self sch (_started self), calls, found).

Definition update (self : t) (dt : float) : t * list HookCall :=
  let '(sch, calls) := Scheduler.update (_scheduler self) ThisWorld dt in
  (set_scheduler self sch (_started self), calls).

(** *** Utilities *)

(** The loop [for e in list(self.entities)] of [clear]. *)
Fixpoint clear_each (store : ComponentStore.t) (es : list Z)
    : ComponentStore.t * Outcome unit :=
  match es with
  | [] => (store, Returned tt)
  | e :: rest =>
      match ComponentStore.remove_all_for_entity store e with
      | (store', Returned _) => clear_each store' rest
      | (store', Raised exc) => (store', Raised exc)
      end
  end.

Definition clear (self : t) : t * list HookCall * Outcome unit :=
  let '(self, calls) := stop self in
  match clear_each (_store self) (EntityManager.__iter__ (entities self)) with
  | (store, Raised exc) => (set_store self store, calls, Raised exc)
  | (store, Returned _) =>
      let self := set_store self (ComponentStore.clear store) in
      let self := set_resources self (Resources.clear (resources self)) in
      (self, calls, Returned tt)
  end.

(** *** The worlds a program can reach through the methods of [World] *)

Inductive reachable : t -> Prop :=
| reachable_init : reachable __init__
| reachable_start w : reachable w -> reachable (fst (start w))
| reachable_stop w : reachable w -> reachable (fst (stop w))
| reachable_update w dt : reachable w -> reachable (fst (update w dt))
| reachable_add_system w system :
    reachable w -> reachable (fst (add_system w system))
| reachable_remove_system w system :
    reachable w -> reachable (fst (fst (remove_system w system)))
| reachable_create_entity w : reachable w -> reachable (fst (create_entity w))
| reachable_destroy_entity w entity :
    reachable w -> reachable (fst (destroy_entity w entity))
| reachable_add_component w entity component :
    reachable w -> reachable (fst (add_component w entity component))
| reachable_upsert_component w entity component :
    reachable w -> reachable (fst (upsert_component w entity component))
| reachable_remove_component w entity ctype :
    reachable w -> reachable (fst (remove_component w entity ctype))
| reachable_clear w : reachable w -> reachable (fst (fst (clear w))).

End World.

(** A scheduler on which [add] was called once per element of [systems],
    in that order. *)
Definition add_all (self : Scheduler.t) (systems : list System) : Scheduler.t :=
  fold_left (fun sch sys => fst (Scheduler.add sch sys)) systems self.

(** Descending by priority: nothing is followed by a higher priority. *)
Definition by_priority_descending (l : list System) : Prop :=
  StronglySorted (fun a b => priority b <= priority a) l.

(** The systems of [l] whose priority is [p], in the order of [l]. *)
Definition with_priority (p : Z) (l : list System) : list System :=
  filter (fun sys => priority sys = p) l.

(** No pair of the store holds Python's [None] as its instance
    ([add(entity, None)] would file [None] under [NoneType]). *)
Definition no_none_instance (store : ComponentStore.t) : Prop :=
  forall entity ctype,
    ComponentStore.instance_at store entity ctype <> Some PyNone.

(** ** Worlds used in the examples below *)

(** A new world in which two entities were created (ids 1 and 2) and entity
    1 was given a [Position] and a [Velocity], as in [example_usage.py]. *)
Definition world_with_two_entities : World.t :=
  let w := fst (World.create_entity World.__init__) in
  let w := fst (World.create_entity w) in
  let w := fst (World.add_component w 1 (Object "Position" [0; 0])) in
  fst (World.add_component w 1 (Object "Velocity" [1; 2])).

(** The store of the view scenario: entities 1, 2 and 3 carry an [X], and
    only 1 and 3 carry a [Y] as well. *)
Definition store_of_three : ComponentStore.t :=
  ComponentStore.run_ops ComponentStore.__init__
    [ComponentStore.OpAdd 1 (Object "X" [1]);
     ComponentStore.OpAdd 1 (Object "Y" [1]);
     ComponentStore.OpAdd 2 (Object "X" [2]);
     ComponentStore.OpAdd 3 (Object "X" [3]);
     ComponentStore.OpAdd 3 (Object "Y" [3])].

(** A world with one entity, id 1, and no component. *)
Definition world_with_bare_entity : World.t :=
  fst (World.create_entity World.__init__).

(** A world holding one system that was started. *)
Definition started_world : World.t :=
  fst (World.start (fst (World.add_system World.__init__ (MkSystem 0 10)))).


(** ** Further invariants of the store *)

(** No key of the three dictionaries is left with an empty inner mapping or
    an empty set: what [remove] prunes. *)
Definition no_empty_entries (store : ComponentStore.t) : Prop :=
  (forall ctype entities,
      ComponentStore._by_component store !! ctype = Some entities ->
      entities <> ∅)
  /\ (forall ctype s,
      ComponentStore._index_by_component store !! ctype = Some s -> s <> ∅)
  /\ (forall entity s,
      ComponentStore._index_by_entity store !! entity = Some s -> s <> ∅).


(** ** Sequences of scheduler calls *)

Inductive SchedulerOp : Type :=
| SchedAdd (system : System)
| SchedRemove (system : System)
| SchedStart
| SchedStop
| SchedUpdate (dt : float).

(** The scheduler a call leaves behind. *)
Definition run_scheduler_op (sch : Scheduler.t) (op : SchedulerOp)
    : Scheduler.t :=
  match op with
  | SchedAdd system => fst (Scheduler.add sch system)
  | SchedRemove system => fst (fst (Scheduler.remove sch system))
  | SchedStart => fst (Scheduler.start sch ThisWorld)
  | SchedStop => fst (Scheduler.stop sch ThisWorld)
  | SchedUpdate dt => fst (Scheduler.update sch ThisWorld dt)
  end.

Definition run_scheduler_ops (sch : Scheduler.t) (ops : list SchedulerOp)
    : Scheduler.t :=
  fold_left run_scheduler_op ops sch.

(** The started flag and the held world go together. *)
Definition scheduler_inv (sch : Scheduler.t) : Prop :=
  by_priority_descending (Scheduler._systems sch)
  /\ (Scheduler._started sch = true <-> is_Some (Scheduler._world_ref sch)).


(** ** Invariants of the world *)

(** What the methods of [World] keep between them: the allocator is in a
    state [create] and [destroy] reach, the store is consistent and prunes,
    every stored component belongs to an alive entity, and the world's
    started flag is the scheduler's. *)
Definition world_inv (w : World.t) : Prop :=
  EntityManager.reachable (World.entities w)
  /\ ComponentStore.consistent (World._store w)
  /\ no_empty_entries (World._store w)
  /\ (forall entity ctype,
        ComponentStore.in_store (World._store w) entity ctype ->
        entity ∈ EntityManager._alive (World.entities w))
  /\ scheduler_inv (World._scheduler w)
  /\ Scheduler._started (World._scheduler w) = World._started w.

(** * Properties *)

(** ** The embedding on concrete inputs *)

Example add_then_get :
  ComponentStore.get
    (fst (ComponentStore.add ComponentStore.__init__ 1
            (Object "Position" [0; 0])))
    1 (Class "Position")
  = Object "Position" [0; 0].
Proof. vm_compute. reflexivity. Qed.

Example add_twice_raises :
  snd (ComponentStore.add
         (fst (ComponentStore.add ComponentStore.__init__ 1
                 (Object "Position" [0; 0])))
         1 (Object "Position" [7; 7]))
  = Raised ComponentAlreadyExists.
Proof. vm_compute. reflexivity. Qed.

(** [remove] prunes the emptied inner mapping and both emptied sets. *)
Example add_then_remove_prunes :
  ComponentStore.remove
    (fst (ComponentStore.add ComponentStore.__init__ 1
            (Object "Position" [0; 0])))
    1 (Class "Position")
  = (ComponentStore.__init__, Returned tt).
Proof. vm_compute. reflexivity. Qed.

Example remove_all_counts :
  ComponentStore.remove_all_for_entity
    (World._store world_with_two_entities) 1
  = (ComponentStore.__init__, Returned 2).
Proof. vm_compute. reflexivity. Qed.

(** Only entities 1 and 3 carry both [X] and [Y]; the order is the set's. *)
Example all_of_intersects :
  ComponentStore.all_of store_of_three [Class "X"; Class "Y"] ≡ₚ [1; 3]
  /\ ComponentStore.all_of store_of_three [Class "Y"; Class "Z"; Class "X"]
     = [].
Proof. vm_compute. split; [apply perm_swap|reflexivity]. Qed.

Example sort_is_stable :
  sort_by_priority_reverse
    [MkSystem 0 1; MkSystem 1 3; MkSystem 2 1; MkSystem 3 3; MkSystem 4 2]
  = [MkSystem 1 3; MkSystem 3 3; MkSystem 4 2; MkSystem 0 1; MkSystem 2 1].
Proof. reflexivity. Qed.

(** A running generator whose next entity has lost its component raises. *)
Example next_on_missing_component :
  World.next world_with_two_entities (Suspended [Class "Position"] [2])
  = (Finished, Raised ComponentNotFound).
Proof. vm_compute. reflexivity. Qed.

(** [add_system] on a started world: the scheduler calls the start hook,
    and so does the world. *)
Example add_system_to_started_world :
  snd (World.add_system started_world (MkSystem 1 3))
  = [CallStart (MkSystem 1 3); CallStart (MkSystem 1 3)].
Proof. reflexivity. Qed.

(** ** Entity allocator *)

Section EntityManagerFacts.
Import EntityManager.

Example create_from_init : snd (create __init__) = 1.
Proof. reflexivity. Qed.

Lemma list_pop_snoc (l : list Z) (x : Z) : list_pop (l ++ [x]) = Some (l, x).
Proof. unfold list_pop. by rewrite last_snoc, removelast_last. Qed.

Lemma list_pop_nil : list_pop [] = None.
Proof. reflexivity. Qed.

Lemma snoc_cases (l : list Z) : l = [] \/ exists l' x, l = l' ++ [x].
Proof. destruct l using rev_ind; [by left|right; eauto]. Qed.

Lemma create_recycles (self : t) (rest : list Z) (x : Z) :
  _free self = rest ++ [x] ->
  create self =
    ({| _alive := {[x]} ∪ _alive self; _free := rest;
        _next_id := _next_id self |}, x).
Proof. intros Hfree. unfold create. by rewrite Hfree, list_pop_snoc. Qed.

Lemma create_mints (self : t) :
  _free self = [] ->
  create self =
    ({| _alive := {[_next_id self]} ∪ _alive self; _free := [];
        _next_id := _next_id self + 1 |}, _next_id self).
Proof. intros Hfree. unfold create. by rewrite Hfree. Qed.

Lemma destroy_alive (self : t) (entity : Z) :
  is_alive self entity = true ->
  destroy self entity =
    ({| _alive := _alive self ∖ {[entity]};
        _free := _free self ++ [entity];
        _next_id := _next_id self |}, true).
Proof.
  unfold is_alive, destroy. intros Halive%bool_decide_eq_true.
  by rewrite decide_True.
Qed.

Lemma destroy_dead (self : t) (entity : Z) :
  is_alive self entity = false -> destroy self entity = (self, false).
Proof.
  unfold is_alive, destroy. intros Hdead%bool_decide_eq_false.
  by rewrite decide_False.
Qed.

Lemma allocator_inv_init : allocator_inv __init__.
Proof.
  unfold allocator_inv; simpl. split; [lia|]. split; [|split].
  - intros x. split; [lia|].
    intros [Hx|Hx]; [set_solver|by apply elem_of_nil in Hx].
  - constructor.
  - intros x Hx. set_solver.
Qed.

Lemma allocator_inv_create (self : t) :
  allocator_inv self -> allocator_inv (fst (create self)).
Proof.
  intros (Hpos & Hrange & Hnodup & Hdisj).
  destruct (snoc_cases (_free self)) as [Hfree|(l & y & Hfree)].
  - rewrite (create_mints self Hfree). unfold allocator_inv; simpl.
    split; [lia|]. split; [|split].
    + intros x. split.
      * intros Hx. destruct (decide (x = _next_id self)) as [->|Hne].
        { left. apply elem_of_union. left. by apply elem_of_singleton. }
        assert (1 <= x < _next_id self) as Hin by lia.
        apply Hrange in Hin as [?|Hin];
          [left; apply elem_of_union; by right|].
        rewrite Hfree in Hin. by apply elem_of_nil in Hin.
      * intros [[->%elem_of_singleton|Hin]%elem_of_union|Hin]; [lia| |].
        { assert (1 <= x < _next_id self) by (apply Hrange; by left). lia. }
        by apply elem_of_nil in Hin.
    + constructor.
    + intros x _ Hx. by apply elem_of_nil in Hx.
  - rewrite (create_recycles self l y Hfree). unfold allocator_inv; simpl.
    rewrite Hfree in Hnodup, Hdisj, Hrange.
    apply NoDup_app in Hnodup as (Hl & Hly & _).
    split; [lia|]. split; [|split].
    + intros x. rewrite Hrange, elem_of_app, elem_of_union,
        list_elem_of_singleton, elem_of_singleton. tauto.
    + done.
    + intros x [->%elem_of_singleton|Hx]%elem_of_union Hin.
      * apply (Hly y Hin). by apply list_elem_of_singleton.
      * apply (Hdisj x Hx). apply elem_of_app. by left.
Qed.

Lemma allocator_inv_destroy (self : t) (entity : Z) :
  allocator_inv self -> allocator_inv (fst (destroy self entity)).
Proof.
  intros (Hpos & Hrange & Hnodup & Hdisj). unfold destroy.
  destruct (decide (entity ∈ _alive self)) as [Hin|Hout]; simpl;
    [|unfold allocator_inv; auto].
  unfold allocator_inv; simpl. split; [lia|]. split; [|split].
  - intros x. rewrite Hrange, elem_of_app, elem_of_difference,
      list_elem_of_singleton, elem_of_singleton.
    destruct (decide (x = entity)) as [->|?]; tauto.
  - apply NoDup_app. split; [done|]. split; [|apply NoDup_singleton].
    intros x Hx ->%list_elem_of_singleton. by apply (Hdisj entity).
  - intros x [Hx Hne]%elem_of_difference [? | ->%list_elem_of_singleton]%elem_of_app.
    + by apply (Hdisj x).
    + set_solver.
Qed.

Lemma reachable_allocator_inv (self : t) :
  reachable self -> allocator_inv self.
Proof.
  induction 1;
    auto using allocator_inv_init, allocator_inv_create, allocator_inv_destroy.
Qed.

End EntityManagerFacts.

(** ** Component store *)

Section DictFacts.
Context `{Countable K} {V : Type}.
Implicit Types (d : gmap K V) (key : K).

Lemma setdefault_value d key (dflt : V) :
  snd (setdefault d key dflt) = default dflt (d !! key).
Proof. unfold setdefault. by destruct (d !! key). Qed.

Lemma setdefault_lookup d key (dflt : V) :
  fst (setdefault d key dflt) !! key = Some (default dflt (d !! key)).
Proof.
  unfold setdefault. destruct (d !! key) eqn:Hd; simpl; [done|].
  by rewrite lookup_insert_eq.
Qed.

Lemma setdefault_lookup_ne d key key' (dflt : V) :
  key' <> key -> fst (setdefault d key dflt) !! key' = d !! key'.
Proof.
  intros Hne. unfold setdefault. destruct (d !! key); simpl; [done|].
  by rewrite lookup_insert_ne.
Qed.

Lemma setdefault_present d key (dflt v : V) :
  d !! key = Some v -> setdefault d key dflt = (d, v).
Proof. intros Hd. unfold setdefault. by rewrite Hd. Qed.
End DictFacts.

Section IndexFacts.
Import ComponentStore.
Context `{Countable K} `{Countable X}.
Implicit Types (index : gmap K (gset X)) (key : K) (x : X).

Lemma elem_of_index_add index key x key' x' :
  x' ∈ default ∅ (index_add index key x !! key')
  <-> (key' = key /\ x' = x) \/ x' ∈ default ∅ (index !! key').
Proof.
  unfold index_add.
  pose proof (setdefault_value index key ∅) as Hv.
  pose proof (setdefault_lookup_ne index key key' ∅) as Hne.
  destruct (setdefault index key ∅) as [index' s]; simpl in *. subst s.
  destruct (decide (key' = key)) as [->|Hk].
  - rewrite lookup_insert_eq; simpl. rewrite elem_of_union, elem_of_singleton.
    tauto.
  - rewrite lookup_insert_ne by done. rewrite Hne by done. tauto.
Qed.

Lemma elem_of_index_discard index key x key' x' :
  x' ∈ default ∅ (index_discard index key x !! key')
  <-> ~ (key' = key /\ x' = x) /\ x' ∈ default ∅ (index !! key').
Proof.
  unfold index_discard. destruct (index !! key) as [s|] eqn:Hs.
  - destruct (decide (s = ∅)) as [->|Hne].
    + destruct (decide (key' = key)) as [->|Hk]; [|tauto].
      rewrite Hs; simpl. rewrite elem_of_empty. tauto.
    + destruct (decide (s ∖ {[x]} = ∅)) as [Hempty|Hleft].
      * destruct (decide (key' = key)) as [->|Hk].
        -- rewrite lookup_delete_eq, Hs; simpl. rewrite elem_of_empty.
           split; [tauto|]. intros [Hnot Hin]. apply Hnot. split; [done|].
           destruct (decide (x' = x)) as [|Hx]; [done|].
           assert (x' ∈ s ∖ {[x]}) as Hin' by set_solver.
           rewrite Hempty in Hin'. by apply elem_of_empty in Hin'.
        -- rewrite lookup_delete_ne by done. tauto.
      * destruct (decide (key' = key)) as [->|Hk].
        -- rewrite lookup_insert_eq, Hs; simpl.
           rewrite elem_of_difference, elem_of_singleton. tauto.
        -- rewrite lookup_insert_ne by done. tauto.
  - destruct (decide (key' = key)) as [->|Hk]; [|tauto].
    rewrite Hs; simpl. rewrite elem_of_empty. tauto.
Qed.
End IndexFacts.

Section ComponentStoreFacts.
Import ComponentStore.
Implicit Types (self : t) (entity : Z) (ctype : ComponentType)
  (component : ComponentInstance).

Lemma get_instance_at self entity ctype :
  get self entity ctype = default PyNone (instance_at self entity ctype).
Proof. reflexivity. Qed.

Lemma has_in_store self entity ctype :
  has self entity ctype = true <-> in_store self entity ctype.
Proof. unfold has, in_store, instance_at. apply bool_decide_eq_true. Qed.

Lemma entities_with_index self entity ctype :
  entity ∈ entities_with self ctype <-> in_component_index self entity ctype.
Proof. reflexivity. Qed.

(** *** [upsert] *)

Lemma upsert_returns self entity component :
  snd (upsert self entity component) = Returned tt.
Proof.
  unfold upsert. by destruct (setdefault (_by_component self) _ _).
Qed.

Lemma instance_at_upsert self entity component entity' ctype' :
  instance_at (fst (upsert self entity component)) entity' ctype'
  = if decide (entity' = entity /\ ctype' = type component)
    then Some component else instance_at self entity' ctype'.
Proof.
  unfold upsert, instance_at.
  pose proof (setdefault_value (_by_component self) (type component) ∅) as Hv.
  pose proof (setdefault_lookup_ne (_by_component self) (type component)
                ctype' ∅) as Hne.
  destruct (setdefault (_by_component self) (type component) ∅)
    as [by_component entities]; simpl in *. subst entities.
  destruct (decide (ctype' = type component)) as [->|Hc].
  - rewrite lookup_insert_eq; simpl.
    destruct (decide (entity' = entity)) as [->|He].
    + rewrite lookup_insert_eq. by rewrite decide_True.
    + rewrite lookup_insert_ne by done. rewrite decide_False by tauto. done.
  - rewrite lookup_insert_ne by done. rewrite Hne by done.
    by rewrite decide_False by tauto.
Qed.

Lemma in_store_upsert self entity component entity' ctype' :
  in_store (fst (upsert self entity component)) entity' ctype'
  <-> (entity' = entity /\ ctype' = type component)
      \/ in_store self entity' ctype'.
Proof.
  unfold in_store. rewrite instance_at_upsert.
  destruct (decide _) as [Heq|Hne]; [|tauto].
  split; [by left|]. intros _. by eexists.
Qed.

Lemma in_component_index_upsert self entity component entity' ctype' :
  in_component_index (fst (upsert self entity component)) entity' ctype'
  <-> (entity' = entity /\ ctype' = type component)
      \/ in_component_index self entity' ctype'.
Proof.
  unfold upsert, in_component_index.
  destruct (setdefault (_by_component self) _ _); simpl.
  rewrite elem_of_index_add. tauto.
Qed.

Lemma in_entity_index_upsert self entity component entity' ctype' :
  in_entity_index (fst (upsert self entity component)) entity' ctype'
  <-> (entity' = entity /\ ctype' = type component)
      \/ in_entity_index self entity' ctype'.
Proof.
  unfold upsert, in_entity_index.
  destruct (setdefault (_by_component self) _ _); simpl.
  by rewrite elem_of_index_add.
Qed.

(** *** [add]: it raises without a trace, or it is [upsert] *)

Lemma add_raises self entity component :
  in_store self entity (type component) ->
  add self entity component = (self, Raised ComponentAlreadyExists).
Proof.
  unfold in_store, instance_at, add. intros Hin.
  destruct (_by_component self !! type component) as [entities|] eqn:Hc.
  - rewrite (setdefault_present _ _ _ _ Hc). simpl in Hin.
    rewrite decide_True by done. by destruct self.
  - simpl in Hin. rewrite lookup_empty in Hin. by destruct Hin.
Qed.

Lemma add_returns self entity component :
  ~ in_store self entity (type component) ->
  add self entity component = upsert self entity component.
Proof.
  unfold in_store, instance_at, add, upsert. intros Hout.
  pose proof (setdefault_value (_by_component self) (type component) ∅) as Hv.
  destruct (setdefault (_by_component self) (type component) ∅)
    as [by_component entities]; simpl in *. subst entities.
  by rewrite decide_False.
Qed.

Lemma add_cases self entity component :
  (in_store self entity (type component)
   /\ add self entity component = (self, Raised ComponentAlreadyExists))
  \/ (~ in_store self entity (type component)
      /\ add self entity component = upsert self entity component).
Proof.
  destruct (decide (in_store self entity (type component))) as [Hin|Hout].
  - left. auto using add_raises.
  - right. auto using add_returns.
Qed.

(** *** [remove] *)

Lemma remove_raises self entity ctype :
  ~ in_store self entity ctype ->
  remove self entity ctype = (self, Raised ComponentNotFound).
Proof.
  unfold in_store, instance_at, remove. intros Hout.
  destruct (_by_component self !! ctype) as [entities|]; [|done].
  simpl in Hout. destruct (decide (entities = ∅)); [done|].
  by rewrite decide_False.
Qed.

Lemma remove_returns self entity ctype :
  in_store self entity ctype ->
  snd (remove self entity ctype) = Returned tt.
Proof.
  unfold in_store, instance_at, remove. intros Hin.
  destruct (_by_component self !! ctype) as [entities|]; simpl in Hin.
  - destruct (decide (entities = ∅)) as [->|Hne].
    + rewrite lookup_empty in Hin. by destruct Hin.
    + by rewrite decide_True.
  - rewrite lookup_empty in Hin. by destruct Hin.
Qed.

Lemma instance_at_remove self entity ctype entity' ctype' :
  in_store self entity ctype ->
  instance_at (fst (remove self entity ctype)) entity' ctype'
  = if decide (entity' = entity /\ ctype' = ctype)
    then None else instance_at self entity' ctype'.
Proof.
  unfold in_store, instance_at, remove. intros Hin.
  destruct (_by_component self !! ctype) as [entities|] eqn:Hc; simpl in Hin.
  2:{ rewrite lookup_empty in Hin. by destruct Hin. }
  destruct (decide (entities = ∅)) as [->|Hne].
  { rewrite lookup_empty in Hin. by destruct Hin. }
  rewrite decide_True by done. simpl.
  destruct (decide (ctype' = ctype)) as [->|Hct].
  - destruct (decide (delete entity entities = ∅)) as [Hempty|Hleft].
    + rewrite lookup_delete_eq; simpl. rewrite lookup_empty, Hc; simpl.
      destruct (decide (entity' = entity)) as [->|He].
      * by rewrite decide_True.
      * rewrite decide_False by tauto.
        rewrite <- (lookup_delete_ne entities entity entity') by done.
        by rewrite Hempty, lookup_empty.
    + rewrite lookup_insert_eq, Hc; simpl.
      destruct (decide (entity' = entity)) as [->|He].
      * rewrite decide_True by done. by rewrite lookup_delete_eq.
      * rewrite decide_False by tauto. by rewrite lookup_delete_ne.
  - destruct (decide (delete entity entities = ∅)).
    + rewrite decide_False by tauto. by rewrite lookup_delete_ne.
    + rewrite decide_False by tauto. by rewrite lookup_insert_ne.
Qed.

Lemma in_store_remove self entity ctype entity' ctype' :
  in_store self entity ctype ->
  in_store (fst (remove self entity ctype)) entity' ctype'
  <-> ~ (entity' = entity /\ ctype' = ctype) /\ in_store self entity' ctype'.
Proof.
  intros Hin. unfold in_store at 1. rewrite instance_at_remove by done.
  destruct (decide _) as [Heq|Hne]; [|unfold in_store; tauto].
  split; [by intros []|tauto].
Qed.

Lemma in_component_index_remove self entity ctype entity' ctype' :
  in_store self entity ctype ->
  in_component_index (fst (remove self entity ctype)) entity' ctype'
  <-> ~ (entity' = entity /\ ctype' = ctype)
      /\ in_component_index self entity' ctype'.
Proof.
  unfold in_store, instance_at, in_component_index, remove. intros Hin.
  destruct (_by_component self !! ctype) as [entities|] eqn:Hc; simpl in Hin.
  2:{ rewrite lookup_empty in Hin. by destruct Hin. }
  destruct (decide (entities = ∅)) as [->|Hne].
  { rewrite lookup_empty in Hin. by destruct Hin. }
  rewrite decide_True by done. simpl.
  rewrite elem_of_index_discard. tauto.
Qed.

Lemma in_entity_index_remove self entity ctype entity' ctype' :
  in_store self entity ctype ->
  in_entity_index (fst (remove self entity ctype)) entity' ctype'
  <-> ~ (entity' = entity /\ ctype' = ctype)
      /\ in_entity_index self entity' ctype'.
Proof.
  unfold in_store, instance_at, in_entity_index, remove. intros Hin.
  destruct (_by_component self !! ctype) as [entities|] eqn:Hc; simpl in Hin.
  2:{ rewrite lookup_empty in Hin. by destruct Hin. }
  destruct (decide (entities = ∅)) as [->|Hne].
  { rewrite lookup_empty in Hin. by destruct Hin. }
  rewrite decide_True by done. simpl.
  rewrite elem_of_index_discard. tauto.
Qed.

(** *** The three facets move together *)

Lemma consistent_init : consistent __init__.
Proof.
  intros entity ctype.
  unfold in_store, instance_at, in_component_index, in_entity_index; simpl.
  rewrite !lookup_empty; simpl. rewrite lookup_empty, !elem_of_empty.
  split; [|done]. split; [by intros []|done].
Qed.

Lemma consistent_clear self : consistent (clear self).
Proof. apply consistent_init. Qed.

Lemma consistent_upsert self entity component :
  consistent self -> consistent (fst (upsert self entity component)).
Proof.
  intros Hcons entity' ctype'. destruct (Hcons entity' ctype') as [H1 H2].
  rewrite in_store_upsert, in_component_index_upsert, in_entity_index_upsert.
  tauto.
Qed.

Lemma consistent_add self entity component :
  consistent self -> consistent (fst (add self entity component)).
Proof.
  intros Hcons.
  destruct (add_cases self entity component) as [[_ ->]|[_ ->]]; [done|].
  by apply consistent_upsert.
Qed.

Lemma consistent_remove self entity ctype :
  consistent self -> consistent (fst (remove self entity ctype)).
Proof.
  intros Hcons.
  destruct (decide (in_store self entity ctype)) as [Hin|Hout].
  - intros entity' ctype'. destruct (Hcons entity' ctype') as [H1 H2].
    rewrite in_store_remove, in_component_index_remove,
      in_entity_index_remove by done.
    tauto.
  - by rewrite remove_raises.
Qed.

Lemma consistent_remove_each self entity ctypes removed :
  consistent self ->
  consistent (fst (remove_each self entity ctypes removed)).
Proof.
  revert self removed.
  induction ctypes as [|ctype rest IH]; intros self removed Hcons; [done|].
  simpl. pose proof (consistent_remove self entity ctype Hcons) as Hstep.
  destruct (remove self entity ctype) as [self' [[]|exc]]; simpl in *.
  - by apply IH.
  - done.
Qed.

Lemma consistent_remove_all_for_entity self entity :
  consistent self -> consistent (fst (remove_all_for_entity self entity)).
Proof. apply consistent_remove_each. Qed.

Lemma consistent_run_op self op :
  consistent self -> consistent (run_op self op).
Proof.
  destruct op; simpl;
    auto using consistent_add, consistent_upsert, consistent_remove,
      consistent_remove_all_for_entity, consistent_clear.
Qed.

Lemma consistent_run_ops self ops :
  consistent self -> consistent (run_ops self ops).
Proof.
  revert self. induction ops as [|op ops IH]; intros self Hcons; [done|].
  simpl. apply IH. by apply consistent_run_op.
Qed.

(** *** What a raising call leaves behind *)

Lemma add_raised_inv self entity component self' exc :
  add self entity component = (self', Raised exc) ->
  self' = self /\ exc = ComponentAlreadyExists
  /\ in_store self entity (type component).
Proof.
  destruct (add_cases self entity component) as [[Hin ->]|[_ ->]].
  - by intros [= <- <-].
  - intros Heq. pose proof (upsert_returns self entity component) as Hret.
    rewrite Heq in Hret. discriminate.
Qed.

Lemma add_returned_inv self entity component :
  snd (add self entity component) = Returned tt ->
  ~ in_store self entity (type component).
Proof.
  destruct (add_cases self entity component) as [[Hin ->]|[Hout _]];
    [discriminate|done].
Qed.

Lemma remove_raised_inv self entity ctype self' exc :
  remove self entity ctype = (self', Raised exc) ->
  self' = self /\ exc = ComponentNotFound /\ ~ in_store self entity ctype.
Proof.
  destruct (decide (in_store self entity ctype)) as [Hin|Hout].
  - intros Heq. pose proof (remove_returns self entity ctype Hin) as Hret.
    rewrite Heq in Hret. discriminate.
  - rewrite (remove_raises self entity ctype Hout). by intros [= <- <-].
Qed.

Lemma remove_each_raised_inv self entity ctypes removed self' exc :
  remove_each self entity ctypes removed = (self', Raised exc) ->
  exc = ComponentNotFound.
Proof.
  revert self removed.
  induction ctypes as [|ctype rest IH]; intros self removed; [done|].
  simpl. destruct (remove self entity ctype) as [self1 [[]|exc1]] eqn:Hrm.
  - apply IH.
  - intros [= <- <-]. by apply remove_raised_inv in Hrm as (_ & -> & _).
Qed.

(** *** [remove_all_for_entity] on a consistent store returns *)

Lemma remove_each_returns self entity ctypes removed :
  NoDup ctypes ->
  (forall ctype, ctype ∈ ctypes -> in_store self entity ctype) ->
  snd (remove_each self entity ctypes removed)
  = Returned (removed + Z.of_nat (length ctypes)).
Proof.
  revert self removed.
  induction ctypes as [|ctype rest IH]; intros self removed Hnodup Hall.
  - simpl. f_equal. lia.
  - apply NoDup_cons in Hnodup as [Hfresh Hnodup].
    assert (in_store self entity ctype) as Hin
      by (apply Hall, elem_of_cons; by left).
    simpl. pose proof (remove_returns self entity ctype Hin) as Hret.
    pose proof (in_store_remove self entity ctype entity) as Hleft.
    destruct (remove self entity ctype) as [self' out]; simpl in *.
    subst out. rewrite IH; [f_equal; lia|done|].
    intros ctype' Hin'. apply Hleft; [done|]. split.
    + intros [_ ->]. done.
    + apply Hall, elem_of_cons. by right.
Qed.

Lemma remove_all_for_entity_returns self entity :
  consistent self ->
  exists removed,
    snd (remove_all_for_entity self entity) = Returned removed.
Proof.
  intros Hcons. eexists. unfold remove_all_for_entity.
  apply remove_each_returns; [apply NoDup_elements|].
  intros ctype Hin%elem_of_elements.
  destruct (Hcons entity ctype) as [Hstore Hindex].
  apply Hstore, Hindex, Hin.
Qed.

End ComponentStoreFacts.

(** ** Scheduler *)

Section SchedulerFacts.
Implicit Types (sys : System) (l : list System) (p : Z).

Lemma insert_by_priority_perm sys l : insert_by_priority sys l ≡ₚ sys :: l.
Proof.
  induction l as [|x rest IH]; simpl; [done|].
  destruct (decide (priority sys < priority x)); [|done].
  rewrite IH. apply perm_swap.
Qed.

Lemma insert_by_priority_sorted sys l :
  by_priority_descending l ->
  by_priority_descending (insert_by_priority sys l).
Proof.
  unfold by_priority_descending.
  induction l as [|x rest IH]; simpl; intros Hsorted.
  - repeat constructor.
  - apply StronglySorted_inv in Hsorted as [Hrest Hall].
    destruct (decide (priority sys < priority x)) as [Hlt|Hge].
    + constructor; [by apply IH|].
      rewrite insert_by_priority_perm. constructor; [lia|done].
    + constructor; [by constructor|].
      constructor; [lia|].
      eapply Forall_impl; [exact Hall|]. simpl. intros y Hy. lia.
Qed.

Lemma insert_by_priority_stable p sys l :
  with_priority p (insert_by_priority sys l) = with_priority p (sys :: l).
Proof.
  unfold with_priority.
  induction l as [|x rest IH]; simpl; [done|].
  destruct (decide (priority sys < priority x)) as [Hlt|Hge]; [|done].
  rewrite filter_cons, IH, !filter_cons.
  destruct (decide (priority x = p)) as [Hx|Hx];
    destruct (decide (priority sys = p)) as [Hs|Hs]; try done.
  lia.
Qed.

Lemma sort_by_priority_reverse_perm l : sort_by_priority_reverse l ≡ₚ l.
Proof.
  induction l as [|x rest IH]; simpl; [done|].
  by rewrite insert_by_priority_perm, IH.
Qed.

Lemma sort_by_priority_reverse_sorted l :
  by_priority_descending (sort_by_priority_reverse l).
Proof.
  induction l as [|x rest IH]; simpl; [constructor|].
  by apply insert_by_priority_sorted.
Qed.

Lemma sort_by_priority_reverse_stable p l :
  with_priority p (sort_by_priority_reverse l) = with_priority p l.
Proof.
  induction l as [|x rest IH]; simpl; [done|].
  rewrite insert_by_priority_stable. unfold with_priority in *.
  by rewrite !filter_cons, IH.
Qed.

Lemma add_all_snoc (self : Scheduler.t) l sys :
  add_all self (l ++ [sys]) = fst (Scheduler.add (add_all self l) sys).
Proof. unfold add_all. by rewrite fold_left_app. Qed.

Lemma add_all_order l :
  let order := Scheduler._systems (add_all Scheduler.__init__ l) in
  order ≡ₚ l
  /\ by_priority_descending order
  /\ forall p, with_priority p order = with_priority p l.
Proof.
  induction l as [|sys l IH] using rev_ind; simpl.
  - repeat split; constructor.
  - rewrite add_all_snoc; simpl. destruct IH as (Hperm & _ & Hstable).
    split; [|split].
    + by rewrite sort_by_priority_reverse_perm, Hperm.
    + apply sort_by_priority_reverse_sorted.
    + intros p. rewrite sort_by_priority_reverse_stable.
      unfold with_priority in *. by rewrite !filter_app, Hstable.
Qed.

Lemma with_priority_cons p sys l :
  with_priority p (sys :: l)
  = if decide (priority sys = p) then sys :: with_priority p l
    else with_priority p l.
Proof. unfold with_priority. by rewrite filter_cons. Qed.

Lemma elem_of_with_priority p sys l :
  sys ∈ with_priority p l <-> priority sys = p /\ sys ∈ l.
Proof. unfold with_priority. by rewrite list_elem_of_filter. Qed.

(** Sorted by priority and the same order within each priority: there is
    only one such list. *)
Lemma order_determined l1 l2 :
  by_priority_descending l1 ->
  by_priority_descending l2 ->
  (forall p, with_priority p l1 = with_priority p l2) ->
  l1 = l2.
Proof.
  unfold by_priority_descending. revert l2.
  induction l1 as [|x r1 IH]; intros l2 Hs1 Hs2 Hsame.
  - destruct l2 as [|y r2]; [done|].
    specialize (Hsame (priority y)). rewrite with_priority_cons in Hsame.
    by rewrite decide_True in Hsame.
  - destruct l2 as [|y r2].
    { specialize (Hsame (priority x)). rewrite with_priority_cons in Hsame.
      by rewrite decide_True in Hsame. }
    apply StronglySorted_inv in Hs1 as [Hr1 Hall1].
    apply StronglySorted_inv in Hs2 as [Hr2 Hall2].
    assert (priority x = priority y) as Hxy.
    { destruct (decide (priority x = priority y)) as [|Hne]; [done|].
      assert (x ∈ with_priority (priority x) (y :: r2)) as Hx.
      { rewrite <- Hsame, with_priority_cons, decide_True by done.
        apply elem_of_cons. by left. }
      apply elem_of_with_priority in Hx as [_ Hx].
      assert (y ∈ with_priority (priority y) (x :: r1)) as Hy.
      { rewrite Hsame, with_priority_cons, decide_True by done.
        apply elem_of_cons. by left. }
      apply elem_of_with_priority in Hy as [_ Hy].
      apply elem_of_cons in Hx as [->|Hx]; [done|].
      apply elem_of_cons in Hy as [->|Hy]; [done|].
      rewrite Forall_forall in Hall1, Hall2.
      specialize (Hall1 y Hy). specialize (Hall2 x Hx). lia. }
    assert (x = y) as ->.
    { specialize (Hsame (priority x)). rewrite !with_priority_cons in Hsame.
      rewrite decide_True in Hsame by done.
      rewrite decide_True in Hsame by done. by injection Hsame. }
    f_equal. apply IH; [done|done|].
    intros p. specialize (Hsame p). rewrite !with_priority_cons in Hsame.
    destruct (decide (priority y = p)); [by injection Hsame|done].
Qed.

End SchedulerFacts.

(** ** Queries *)

Section QueryFacts.
Import ComponentStore.
Implicit Types (store : ComponentStore.t) (w : World.t) (entity : Z)
  (ctypes : list ComponentType).

Lemma elem_of_intersect_all (result : gset Z) (sets : list (gset Z)) entity :
  entity ∈ intersect_all result sets
  <-> entity ∈ result /\ forall s, s ∈ sets -> entity ∈ s.
Proof.
  revert result. induction sets as [|s rest IH]; intros result; simpl.
  - split; [|tauto]. intros Hin. split; [done|].
    intros s Hs. by apply elem_of_nil in Hs.
  - destruct (decide (result ∩ s = ∅)) as [Hempty|Hleft].
    + rewrite Hempty, elem_of_empty. split; [done|].
      intros [Hr Hall]. assert (entity ∈ result ∩ s) as Hin.
      { apply elem_of_intersection. split; [done|].
        apply Hall, elem_of_cons. by left. }
      rewrite Hempty in Hin. by apply elem_of_empty in Hin.
    + rewrite IH, elem_of_intersection. split.
      * intros [[Hr Hs] Hall]. split; [done|].
        intros s' [->|Hs']%elem_of_cons; auto.
      * intros [Hr Hall]. split; [split; [done|]|].
        -- apply Hall, elem_of_cons. by left.
        -- intros s' Hs'. apply Hall, elem_of_cons. by right.
Qed.

(** [all_of] is the intersection of the [entities_with] sets. *)
Lemma elem_of_all_of store ctypes entity :
  entity ∈ all_of store ctypes
  <-> ctypes <> [] /\ forall ctype, ctype ∈ ctypes ->
                                  entity ∈ entities_with store ctype.
Proof.
  destruct ctypes as [|ctype rest]; simpl.
  - rewrite elem_of_nil. split; [done|]. by intros [? _].
  - rewrite elem_of_elements, elem_of_intersect_all. split.
    + intros [Hfirst Hall]. split; [done|].
      intros ctype' [->|Hin]%elem_of_cons; [done|].
      apply Hall, list_elem_of_fmap. eauto.
    + intros [_ Hall]. split.
      * apply Hall, elem_of_cons. by left.
      * intros s (ctype' & -> & Hin)%list_elem_of_fmap.
        apply Hall, elem_of_cons. by right.
Qed.

Lemma NoDup_all_of store ctypes : NoDup (all_of store ctypes).
Proof.
  destruct ctypes as [|ctype rest]; simpl; [constructor|].
  apply NoDup_elements.
Qed.

(** The inner loop of the generator: it raises [ComponentNotFound] and
    nothing else, and returns the instances [get] finds. *)
Lemma fetch_returns w entity ctypes :
  (forall ctype, ctype ∈ ctypes ->
                 get (World._store w) entity ctype <> PyNone) ->
  World.fetch w entity ctypes
  = Returned (map (get (World._store w) entity) ctypes).
Proof.
  induction ctypes as [|ctype rest IH]; intros Hall; simpl; [done|].
  rewrite decide_False by (apply Hall, elem_of_cons; by left).
  rewrite IH; [done|]. intros ctype' Hin. apply Hall, elem_of_cons. by right.
Qed.

Lemma fetch_raised_inv w entity ctypes exc :
  World.fetch w entity ctypes = Raised exc -> exc = ComponentNotFound.
Proof.
  induction ctypes as [|ctype rest IH]; simpl; [done|].
  destruct (decide _); [by intros [= <-]|].
  destruct (World.fetch w entity rest); [done|].
  intros [= <-]. by apply IH.
Qed.

Lemma drain_returns w ctypes (remaining : list Z) :
  (forall entity ctype, entity ∈ remaining -> ctype ∈ ctypes ->
                        get (World._store w) entity ctype <> PyNone) ->
  World.drain w ctypes remaining
  = (map (fun entity =>
            (entity, map (get (World._store w) entity) ctypes)) remaining,
     Returned tt).
Proof.
  induction remaining as [|entity rest IH]; intros Hall; simpl; [done|].
  rewrite fetch_returns.
  2:{ intros ctype Hin. apply Hall; [apply elem_of_cons; by left|done]. }
  rewrite IH; [done|].
  intros entity' ctype Hin. apply Hall, elem_of_cons. by right.
Qed.

(** In a consistent store without [None] instances, every entity of the
    index of a type has a component [get] returns. *)
Lemma get_of_indexed store entity ctype :
  consistent store -> no_none_instance store ->
  entity ∈ entities_with store ctype ->
  get store entity ctype <> PyNone.
Proof.
  intros Hcons Hnone Hin. destruct (Hcons entity ctype) as [Hstore _].
  apply Hstore in Hin as [x Hx]. rewrite get_instance_at, Hx; simpl.
  intros ->. by apply (Hnone entity ctype).
Qed.

Lemma fetch_cases w entity ctypes :
  World.fetch w entity ctypes
  = Returned (map (get (World._store w) entity) ctypes)
  \/ World.fetch w entity ctypes = Raised ComponentNotFound.
Proof.
  induction ctypes as [|ctype rest IH]; simpl; [by left|].
  destruct (decide _); [by right|].
  destruct IH as [-> | ->]; [by left|by right].
Qed.

(** One [next()] of a running generator: the entity it yields is the head
    of what was left of the match list, whatever the world now holds. *)
Lemma resume_cases w ctypes entity (remaining : list Z) :
  World.resume w ctypes (entity :: remaining)
  = (Suspended ctypes remaining,
     Returned (Some (entity, map (get (World._store w) entity) ctypes)))
  \/ World.resume w ctypes (entity :: remaining)
     = (Finished, Raised ComponentNotFound).
Proof.
  simpl. destruct (fetch_cases w entity ctypes) as [-> | ->];
    [by left|by right].
Qed.

End QueryFacts.

(** ** World *)

Section WorldFacts.
Implicit Types (w : World.t) (store : ComponentStore.t).

Lemma require_alive_of_alive w (entity : Z) :
  World.is_alive w entity = true ->
  World._require_alive w entity = Returned tt.
Proof. unfold World.is_alive, World._require_alive. by intros ->. Qed.

Lemma require_alive_of_dead w (entity : Z) :
  World.is_alive w entity = false ->
  World._require_alive w entity = Raised EntityNotFound.
Proof. unfold World.is_alive, World._require_alive. by intros ->. Qed.

Lemma stop_frame w :
  World.entities (fst (World.stop w)) = World.entities w
  /\ World._store (fst (World.stop w)) = World._store w
  /\ World._started (fst (World.stop w)) = false.
Proof. unfold World.stop. by destruct (World._started w) eqn:Hs. Qed.

Lemma clear_each_returns store (es : list Z) :
  ComponentStore.consistent store ->
  snd (World.clear_each store es) = Returned tt.
Proof.
  revert store. induction es as [|e rest IH]; intros store Hcons; [done|].
  simpl.
  destruct (remove_all_for_entity_returns store e Hcons) as [n Hret].
  pose proof (consistent_remove_all_for_entity store e Hcons) as Hcons'.
  destruct (ComponentStore.remove_all_for_entity store e) as [store' out].
  simpl in *. subst out. by apply IH.
Qed.

(** [clear] never writes the allocator, returning or raising. *)
Lemma clear_entities w :
  World.entities (fst (fst (World.clear w))) = World.entities w.
Proof.
  unfold World.clear. destruct (stop_frame w) as (Hent & _ & _).
  destruct (World.stop w) as [w' calls]; simpl in *.
  by destruct (World.clear_each _ _) as [store [[]|exc]].
Qed.

(** On a consistent store [clear] returns, and leaves an empty store. *)
Lemma clear_returns w :
  ComponentStore.consistent (World._store w) ->
  snd (World.clear w) = Returned tt
  /\ World._store (fst (fst (World.clear w))) = ComponentStore.__init__.
Proof.
  intros Hcons. unfold World.clear.
  destruct (stop_frame w) as (_ & Hstore & _).
  destruct (World.stop w) as [w' calls]; simpl in *.
  rewrite <- Hstore in Hcons.
  pose proof (clear_each_returns (World._store w')
                (EntityManager.__iter__ (World.entities w')) Hcons) as Hret.
  destruct (World.clear_each _ _) as [store out]; simpl in *. by subst out.
Qed.

Lemma consistent_clear_each store (es : list Z) :
  ComponentStore.consistent store ->
  ComponentStore.consistent (fst (World.clear_each store es)).
Proof.
  revert store. induction es as [|e rest IH]; intros store Hcons; [done|].
  simpl. pose proof (consistent_remove_all_for_entity store e Hcons) as Hstep.
  destruct (ComponentStore.remove_all_for_entity store e)
    as [store' [n|exc]]; simpl in *; [by apply IH|done].
Qed.

(** Every world reached through the methods of [World] has a consistent
    store. *)
Lemma reachable_store_consistent w :
  World.reachable w -> ComponentStore.consistent (World._store w).
Proof.
  induction 1 as [|w _ IH|w _ IH|w dt _ IH|w sys _ IH|w sys _ IH|w _ IH
                  |w e _ IH|w e x _ IH|w e x _ IH|w e c _ IH|w _ IH].
  - apply consistent_init.
  - unfold World.start. by destruct (negb _).
  - by rewrite (proj1 (proj2 (stop_frame w))).
  - done.
  - done.
  - unfold World.remove_system, Scheduler.remove.
    by destruct (decide _).
  - unfold World.create_entity. by destruct (EntityManager.create _).
  - unfold World.destroy_entity.
    destruct (EntityManager.destroy _ _) as [em []]; simpl; [|done].
    pose proof (consistent_remove_all_for_entity (World._store w) e IH).
    by destruct (ComponentStore.remove_all_for_entity _ _) as [store []].
  - unfold World.add_component.
    destruct (World._require_alive w e); [|done].
    pose proof (consistent_add (World._store w) e x IH).
    by destruct (ComponentStore.add _ _ _).
  - unfold World.upsert_component.
    destruct (World._require_alive w e); [|done].
    pose proof (consistent_upsert (World._store w) e x IH).
    by destruct (ComponentStore.upsert _ _ _).
  - unfold World.remove_component.
    destruct (World._require_alive w e); [|done].
    pose proof (consistent_remove (World._store w) e c IH).
    by destruct (ComponentStore.remove _ _ _).
  - unfold World.clear. destruct (stop_frame w) as (_ & Hstore & _).
    destruct (World.stop w) as [w' calls]; simpl in *.
    rewrite <- Hstore in IH.
    pose proof (consistent_clear_each (World._store w')
                  (EntityManager.__iter__ (World.entities w')) IH).
    destruct (World.clear_each _ _) as [store [[]|exc]]; simpl in *;
      [apply consistent_init|done].
Qed.

Lemma world_with_two_entities_reachable :
  World.reachable world_with_two_entities.
Proof.
  apply World.reachable_add_component, World.reachable_add_component,
    World.reachable_create_entity, World.reachable_create_entity,
    World.reachable_init.
Qed.

Lemma all_of_init (ctypes : list ComponentType) :
  ComponentStore.all_of ComponentStore.__init__ ctypes = [].
Proof.
  destruct ctypes as [|ctype rest]; [done|]. simpl.
  unfold ComponentStore.entities_with at 1; simpl.
  rewrite lookup_empty; simpl.
  destruct rest as [|ctype' rest']; simpl; [apply elements_empty|].
  rewrite decide_True by set_solver.
  rewrite intersection_empty_l_L. apply elements_empty.
Qed.

End WorldFacts.

(** C7. Entity id recycling is LIFO.  For every allocator state: when the
    free pool is not empty [create] returns the id at the end of the pool,
    which is the end [destroy] appends to, so the most recently freed id is
    reused first; when the pool is empty [create] returns [_next_id], which
    in every reachable state is positive, not in use, and preceded only by
    ids in use, and moves the counter past it.  In particular, destroying
    alive ids [A] then [B] and creating twice yields [B] and then [A]. *)
Theorem C7_entity_id_recycling_is_lifo :
  (forall (self : EntityManager.t) (rest : list Z) (x : Z),
      EntityManager._free self = rest ++ [x] ->
      snd (EntityManager.create self) = x
      /\ EntityManager._free (fst (EntityManager.create self)) = rest
      /\ EntityManager._next_id (fst (EntityManager.create self))
         = EntityManager._next_id self)
  /\ (forall (self : EntityManager.t) (entity : Z),
      EntityManager.is_alive self entity = true ->
      snd (EntityManager.create (fst (EntityManager.destroy self entity)))
      = entity)
  /\ (forall (self : EntityManager.t),
      EntityManager.reachable self ->
      EntityManager._free self = [] ->
      let eid := snd (EntityManager.create self) in
      eid = EntityManager._next_id self
      /\ 1 <= eid
      /\ EntityManager.is_alive self eid = false
      /\ (forall x, 1 <= x < eid -> EntityManager.is_alive self x = true)
      /\ EntityManager._next_id (fst (EntityManager.create self)) = eid + 1)
  /\ (forall (self : EntityManager.t) (A B : Z),
      EntityManager.is_alive self A = true ->
      EntityManager.is_alive self B = true ->
      A <> B ->
      let s1 := fst (EntityManager.destroy self A) in
      let s2 := fst (EntityManager.destroy s1 B) in
      let s3 := fst (EntityManager.create s2) in
      snd (EntityManager.create s2) = B /\ snd (EntityManager.create s3) = A).
Proof.
  split; [|split; [|split]].
  - intros self rest x Hfree.
    by rewrite (create_recycles self rest x Hfree).
  - intros self entity Halive.
    rewrite (destroy_alive self entity Halive); simpl.
    by erewrite create_recycles.
  - intros self Hreach Hfree eid. subst eid.
    destruct (reachable_allocator_inv self Hreach) as (Hpos & Hrange & _ & _).
    rewrite (create_mints self Hfree); simpl.
    assert (forall x, 1 <= x < EntityManager._next_id self
                      <-> x ∈ EntityManager._alive self) as Hused.
    { intros x. rewrite Hrange, Hfree, elem_of_nil. tauto. }
    repeat apply conj; try done.
    + apply bool_decide_eq_false. rewrite <- Hused. lia.
    + intros x Hx. apply bool_decide_eq_true. by apply Hused.
  - intros self A B HA HB Hne s1 s2 s3. subst s1 s2 s3.
    rewrite (destroy_alive self A HA); simpl.
    rewrite destroy_alive; simpl.
    2:{ apply bool_decide_eq_true. simpl.
        apply bool_decide_eq_true in HB. set_solver. }
    erewrite create_recycles by (simpl; reflexivity). simpl.
    split; [done|]. by erewrite create_recycles by (simpl; reflexivity).
Qed.

(** Ids 1 and 2 are created, then destroyed in that order: the next two
    [create] calls return 2 and then 1. *)
Lemma C7_recycle_two_ids_witness :
  snd (EntityManager.create
         (fst (EntityManager.destroy
                 (fst (EntityManager.destroy
                         (fst (EntityManager.create
                                 (fst (EntityManager.create
                                         EntityManager.__init__)))) 1)) 2))) = 2
  /\ snd (EntityManager.create
            (fst (EntityManager.create
               (fst (EntityManager.destroy
                 (fst (EntityManager.destroy
                         (fst (EntityManager.create
                                 (fst (EntityManager.create
                                         EntityManager.__init__)))) 1)) 2)))))
     = 1.
Proof.
  apply (proj2 (proj2 (proj2 C7_entity_id_recycling_is_lifo))
           (fst (EntityManager.create
                   (fst (EntityManager.create EntityManager.__init__)))) 1 2).
  - vm_compute. reflexivity.
  - vm_compute. reflexivity.
  - lia.
Defined.

(** C1. For every sequence of [add], [upsert], [remove],
    [remove_all_for_entity] and [clear] calls on a new store, returning or
    raising, and for every entity and component type: the
    by-component-then-entity mapping holds an instance for the pair iff the
    entity is in the type's set of the by-component index iff the type is in
    the entity's set of the by-entity index. *)
Theorem C1_store_facets_agree_in_every_reachable_state
    (ops : list ComponentStore.Op) (entity : Z) (ctype : ComponentType) :
  let store := ComponentStore.run_ops ComponentStore.__init__ ops in
  (is_Some (default ∅ (ComponentStore._by_component store !! ctype) !! entity)
   <-> entity ∈ default ∅ (ComponentStore._index_by_component store !! ctype))
  /\ (entity ∈ default ∅ (ComponentStore._index_by_component store !! ctype)
      <-> ctype ∈ default ∅ (ComponentStore._index_by_entity store !! entity)).
Proof.
  intros store.
  exact (consistent_run_ops ComponentStore.__init__ ops consistent_init
           entity ctype).
Qed.

(** C8. Round trip of attach and lookup.  For every store, entity [E] and
    component instance [X]: once [add(E, X)] has returned,
    [get(E, type(X))] returns [X]; [remove(E, type(X))] then returns, and
    after it [get(E, type(X))] returns the absent result [None]. *)
Theorem C8_add_get_remove_round_trip
    (self : ComponentStore.t) (E : Z) (X : ComponentInstance) :
  snd (ComponentStore.add self E X) = Returned tt ->
  let added := fst (ComponentStore.add self E X) in
  let removed := fst (ComponentStore.remove added E (type X)) in
  ComponentStore.get added E (type X) = X
  /\ snd (ComponentStore.remove added E (type X)) = Returned tt
  /\ ComponentStore.get removed E (type X) = PyNone.
Proof.
  intros Hadd added removed. subst removed added.
  apply add_returned_inv in Hadd.
  rewrite (add_returns self E X Hadd).
  assert (ComponentStore.in_store
            (fst (ComponentStore.upsert self E X)) E (type X)) as Hin.
  { apply in_store_upsert. by left. }
  rewrite !get_instance_at, instance_at_remove, instance_at_upsert by done.
  rewrite !decide_True by done. auto using remove_returns.
Qed.

(** A [Position] is attached to entity 1 of a new store, read back, and
    detached. *)
Lemma C8_round_trip_witness :
  ComponentStore.get
    (fst (ComponentStore.add ComponentStore.__init__ 1 (Object "Position" [0; 0])))
    1 (Class "Position") = Object "Position" [0; 0]
  /\ snd (ComponentStore.remove
            (fst (ComponentStore.add ComponentStore.__init__ 1
                    (Object "Position" [0; 0])))
            1 (Class "Position")) = Returned tt
  /\ ComponentStore.get
       (fst (ComponentStore.remove
               (fst (ComponentStore.add ComponentStore.__init__ 1
                       (Object "Position" [0; 0])))
               1 (Class "Position")))
       1 (Class "Position") = PyNone.
Proof.
  apply (C8_add_get_remove_round_trip ComponentStore.__init__ 1
           (Object "Position" [0; 0])).
  vm_compute. reflexivity.
Defined.

(** C4. A raising call leaves nothing behind.  Whenever [add_component]
    raises [ComponentAlreadyExists], [remove_component] raises
    [ComponentNotFound] or [EntityNotFound], or [destroy_entity] raises
    [EntityNotFound], the world after the call (allocator: alive set, free
    list and counter; store: all three facets; scheduler, resources and
    started flag) is the world before it.  The same holds one level down
    for [ComponentStore.add] and [ComponentStore.remove]. *)
Theorem C4_raising_call_leaves_state_unchanged (w : World.t) :
  (forall entity component w',
      World.add_component w entity component
      = (w', Raised ComponentAlreadyExists) -> w' = w)
  /\ (forall entity ctype w' exc,
      World.remove_component w entity ctype = (w', Raised exc) ->
      exc = ComponentNotFound \/ exc = EntityNotFound -> w' = w)
  /\ (forall entity w',
      World.destroy_entity w entity = (w', Raised EntityNotFound) -> w' = w)
  /\ (forall entity component store',
      ComponentStore.add (World._store w) entity component
      = (store', Raised ComponentAlreadyExists) -> store' = World._store w)
  /\ (forall entity ctype store',
      ComponentStore.remove (World._store w) entity ctype
      = (store', Raised ComponentNotFound) -> store' = World._store w).
Proof.
  repeat apply conj.
  - intros entity component w'. unfold World.add_component.
    destruct (World._require_alive w entity); [|by intros [= <-]].
    destruct (ComponentStore.add _ _ _) as [store out] eqn:Hadd.
    intros [= <- ->]. apply add_raised_inv in Hadd as (-> & _). by destruct w.
  - intros entity ctype w' exc. unfold World.remove_component.
    destruct (World._require_alive w entity); [|by intros [= <-]].
    destruct (ComponentStore.remove _ _ _) as [store out] eqn:Hrm.
    intros [= <- ->] _. apply remove_raised_inv in Hrm as (-> & _).
    by destruct w.
  - intros entity w'. unfold World.destroy_entity, EntityManager.destroy.
    destruct (decide _) as [Halive|Hdead]; simpl.
    + destruct (ComponentStore.remove_all_for_entity _ _)
        as [store [n|exc]] eqn:Hrm; [done|].
      intros [= _ ->]. by apply remove_each_raised_inv in Hrm.
    + intros [= <-]. by destruct w.
  - intros entity component store' Hadd.
    by apply add_raised_inv in Hadd as (-> & _).
  - intros entity ctype store' Hrm.
    by apply remove_raised_inv in Hrm as (-> & _).
Qed.

(** The world of the examples: entity 1 already carries a [Position],
    entity 2 carries no [Velocity], entity 7 was never created. *)
Lemma C4_raising_calls_witness :
  fst (World.add_component world_with_two_entities 1 (Object "Position" [5; 5]))
  = world_with_two_entities
  /\ fst (World.remove_component world_with_two_entities 2 (Class "Velocity"))
     = world_with_two_entities
  /\ fst (World.destroy_entity world_with_two_entities 7)
     = world_with_two_entities.
Proof.
  pose proof (C4_raising_call_leaves_state_unchanged world_with_two_entities)
    as (Hadd & Hremove & Hdestroy & _).
  repeat apply conj.
  - apply (Hadd 1 (Object "Position" [5; 5])). vm_compute. reflexivity.
  - apply (Hremove 2 (Class "Velocity") _ ComponentNotFound);
      [vm_compute; reflexivity | by left].
  - apply (Hdestroy 7). vm_compute. reflexivity.
Defined.

(** C5. The liveness check comes first.  For an entity that is not alive,
    each of [add_component], [upsert_component], [remove_component],
    [get_component], [require_component] and [has_component] raises
    [EntityNotFound] and returns the world as it was, whatever the store
    holds; for an alive entity each is the corresponding store call:
    [add], [upsert], [remove], [get], [get] followed by the [None] test,
    and [has]. *)
Theorem C5_liveness_is_checked_before_the_store (w : World.t) (entity : Z) :
  (World.is_alive w entity = false ->
   (forall component,
       World.add_component w entity component = (w, Raised EntityNotFound))
   /\ (forall component,
       World.upsert_component w entity component = (w, Raised EntityNotFound))
   /\ (forall ctype,
       World.remove_component w entity ctype = (w, Raised EntityNotFound))
   /\ (forall ctype,
       World.get_component w entity ctype = (w, Raised EntityNotFound))
   /\ (forall ctype,
       World.require_component w entity ctype = (w, Raised EntityNotFound))
   /\ (forall ctype,
       World.has_component w entity ctype = (w, Raised EntityNotFound)))
  /\ (World.is_alive w entity = true ->
     (forall component,
         World.add_component w entity component
         = (World.set_store w
              (fst (ComponentStore.add (World._store w) entity component)),
            snd (ComponentStore.add (World._store w) entity component)))
     /\ (forall component,
         World.upsert_component w entity component
         = (World.set_store w
              (fst (ComponentStore.upsert (World._store w) entity component)),
            snd (ComponentStore.upsert (World._store w) entity component)))
     /\ (forall ctype,
         World.remove_component w entity ctype
         = (World.set_store w
              (fst (ComponentStore.remove (World._store w) entity ctype)),
            snd (ComponentStore.remove (World._store w) entity ctype)))
     /\ (forall ctype,
         World.get_component w entity ctype
         = (w, Returned (ComponentStore.get (World._store w) entity ctype)))
     /\ (forall ctype,
         World.require_component w entity ctype
         = (w, if decide (ComponentStore.get (World._store w) entity ctype
                          = PyNone)
               then Raised ComponentNotFound
               else Returned
                      (ComponentStore.get (World._store w) entity ctype)))
     /\ (forall ctype,
         World.has_component w entity ctype
         = (w, Returned (ComponentStore.has (World._store w) entity ctype)))).
Proof.
  unfold World.is_alive, World.add_component, World.upsert_component,
    World.remove_component, World.get_component, World.require_component,
    World.has_component, World._require_alive.
  split; intros ->; simpl; repeat apply conj; intros; try done.
  - by destruct (ComponentStore.add _ _ _).
  - by destruct (ComponentStore.upsert _ _ _).
  - by destruct (ComponentStore.remove _ _ _).
  - by destruct (decide _).
Qed.

(** Entity 7 was never created and entity 1 is alive in the world of the
    examples. *)
Lemma C5_dead_and_alive_witness :
  World.add_component world_with_two_entities 7 (Object "Position" [3; 4])
  = (world_with_two_entities, Raised EntityNotFound)
  /\ World.get_component world_with_two_entities 1 (Class "Position")
     = (world_with_two_entities,
        Returned (ComponentStore.get (World._store world_with_two_entities)
                    1 (Class "Position"))).
Proof.
  split.
  - apply (proj1 (C5_liveness_is_checked_before_the_store
                    world_with_two_entities 7)).
    vm_compute. reflexivity.
  - apply (proj2 (C5_liveness_is_checked_before_the_store
                    world_with_two_entities 1)).
    vm_compute. reflexivity.
Defined.

(** C6. The order in which the scheduler runs its systems is fixed by
    priority, descending, and by insertion order among equal priorities.
    For every list [systems] of systems added one [add] call after another
    to a new scheduler: the scheduler's list holds each added system exactly
    once, is sorted by priority descending, keeps the systems of each
    priority in the order they were added, and is the only list that does;
    [update] calls the update hooks in that order, once each; [stop] calls
    the stop hooks in the exact reverse of it.  Adding priorities 5, 10, 5
    gives the order [[10; first 5; second 5]]. *)
Theorem C6_scheduler_order_by_priority_then_insertion
    (systems : list System) (dt : float) :
  let sch := add_all Scheduler.__init__ systems in
  let order := Scheduler._systems sch in
  order ≡ₚ systems
  /\ by_priority_descending order
  /\ (forall p, with_priority p order = with_priority p systems)
  /\ (forall l,
        by_priority_descending l ->
        (forall p, with_priority p l = with_priority p systems) ->
        l = order)
  /\ snd (Scheduler.update sch ThisWorld dt)
     = map (fun sys => CallUpdate sys dt) order
  /\ snd (Scheduler.stop sch ThisWorld) = rev (map CallStop order)
  /\ (forall first5 the10 second5,
        priority first5 = 5 -> priority the10 = 10 -> priority second5 = 5 ->
        systems = [first5; the10; second5] ->
        order = [the10; first5; second5]
        /\ snd (Scheduler.update sch ThisWorld dt)
           = [CallUpdate the10 dt; CallUpdate first5 dt;
              CallUpdate second5 dt]
        /\ snd (Scheduler.stop sch ThisWorld)
           = [CallStop second5; CallStop first5; CallStop the10]).
Proof.
  intros sch order.
  destruct (add_all_order systems) as (Hperm & Hsorted & Hstable).
  fold sch in Hperm, Hsorted, Hstable. fold order in Hperm, Hsorted, Hstable.
  repeat apply conj; try done.
  - intros l Hl Hsame. apply order_determined; [done|done|].
    intros p. by rewrite Hsame, Hstable.
  - simpl. by rewrite map_rev.
  - intros first5 the10 second5 H5 H10 H5' ->.
    assert (order = [the10; first5; second5]) as Horder.
    { subst order sch. unfold add_all; simpl.
      repeat (first [rewrite H5 | rewrite H10 | rewrite H5']; simpl).
      reflexivity. }
    split; [done|]. unfold Scheduler.update, Scheduler.stop. cbn [snd].
    change (Scheduler._systems sch) with order. by rewrite Horder.
Qed.

(** Three systems with priorities 5, 10 and 5, added in that order. *)
Lemma C6_priorities_5_10_5_witness :
  Scheduler._systems
    (add_all Scheduler.__init__ [MkSystem 0 5; MkSystem 1 10; MkSystem 2 5])
  = [MkSystem 1 10; MkSystem 0 5; MkSystem 2 5]
  /\ snd (Scheduler.update
            (add_all Scheduler.__init__
               [MkSystem 0 5; MkSystem 1 10; MkSystem 2 5]) ThisWorld 1%float)
     = [CallUpdate (MkSystem 1 10) 1%float; CallUpdate (MkSystem 0 5) 1%float;
        CallUpdate (MkSystem 2 5) 1%float]
  /\ snd (Scheduler.stop
            (add_all Scheduler.__init__
               [MkSystem 0 5; MkSystem 1 10; MkSystem 2 5]) ThisWorld)
     = [CallStop (MkSystem 2 5); CallStop (MkSystem 0 5);
        CallStop (MkSystem 1 10)].
Proof.
  pose proof (C6_scheduler_order_by_priority_then_insertion
                [MkSystem 0 5; MkSystem 1 10; MkSystem 2 5] 1%float)
    as (_ & _ & _ & _ & _ & _ & Hexample).
  apply (Hexample (MkSystem 0 5) (MkSystem 1 10) (MkSystem 2 5));
    reflexivity.
Defined.

(** C3, at the scheduler, fails: [Scheduler.start] on a scheduler that is
    already started calls the start hook again, and [Scheduler.stop] on a
    scheduler that is not started calls the stop hook. *)
Lemma C3_scheduler_start_stop_fire_again :
  let sys := MkSystem 0 10 in
  let stopped := fst (Scheduler.add Scheduler.__init__ sys) in
  let started := fst (Scheduler.start stopped ThisWorld) in
  Scheduler._started started = true
  /\ snd (Scheduler.start started ThisWorld) = [CallStart sys]
  /\ Scheduler._started stopped = false
  /\ snd (Scheduler.stop stopped ThisWorld) = [CallStop sys].
Proof. repeat split. Qed.

(** C3, amended.  The guard is the world's: [World.start] on a started
    world and [World.stop] on a world that is not started return the world
    unchanged and call no hook.  The world's flag follows
    {not started} -> start() -> {started} -> update()* -> stop() ->
    {not started}: [start] sets it and calls the start hooks in order,
    [update] keeps it and calls the update hooks in order, [stop] clears it
    and calls the stop hooks in reverse order.  [Scheduler.start] and
    [Scheduler.stop] themselves call every hook on every call. *)
Theorem C3_world_start_stop_idempotent (w : World.t) :
  let systems := Scheduler._systems (World._scheduler w) in
  (World._started w = true -> World.start w = (w, []))
  /\ (World._started w = false -> World.stop w = (w, []))
  /\ (World._started w = false ->
      World._started (fst (World.start w)) = true
      /\ snd (World.start w) = map CallStart systems)
  /\ (forall dt,
      fst (World.update w dt) = w
      /\ snd (World.update w dt) = map (fun sys => CallUpdate sys dt) systems)
  /\ (World._started w = true ->
      World._started (fst (World.stop w)) = false
      /\ snd (World.stop w) = map CallStop (rev systems))
  /\ (forall sch : Scheduler.t,
      snd (Scheduler.start sch ThisWorld)
      = map CallStart (Scheduler._systems sch)
      /\ snd (Scheduler.stop sch ThisWorld)
         = map CallStop (rev (Scheduler._systems sch))).
Proof.
  intros systems. unfold World.start, World.stop, World.update.
  repeat apply conj; try (intros ->; done); try done.
  intros dt. simpl. by destruct w as [? ? [] ? ?].
Qed.

(** Starting the started world of the examples again, and stopping a new
    world, change nothing and call nothing. *)
Lemma C3_world_guard_witness :
  World.start started_world = (started_world, [])
  /\ World.stop World.__init__ = (World.__init__, []).
Proof.
  split.
  - apply (C3_world_start_stop_idempotent started_world). reflexivity.
  - apply (C3_world_start_stop_idempotent World.__init__). reflexivity.
Defined.

(** C2, as stated, fails: [view] is called on a world in which no entity
    has a [Position]; a [Position] is then attached to entity 1, before the
    sequence is consumed.  The intersection at the moment of the call is
    empty, yet the sequence yields entity 1. *)
Lemma C2_view_yields_entity_added_after_the_call :
  let w_call := world_with_bare_entity in
  let gen := World.view w_call (Class "Position") None None None None [] in
  let w_later :=
    fst (World.add_component w_call 1 (Object "Position" [0; 0])) in
  ComponentStore.all_of (World._store w_call) [Class "Position"] = []
  /\ World.next w_later gen
     = (Suspended [Class "Position"] [],
        Returned (Some (1, [Object "Position" [0; 0]])))
  /\ map fst (fst (World.consume w_later gen)) = [1].
Proof. vm_compute. repeat split. Qed.

(** C2, amended.  The entities a view's sequence yields are the
    intersection of the store's [entities_with] sets for the requested
    types as they stand when the sequence is first consumed: [view] itself
    reads nothing, the first [next()] calls [all_of] on the store of that
    moment and fixes the match list, without repeats.  If that store is
    consistent and holds no [None] instance, consuming the sequence there
    yields exactly the matched entities, each with the instances [get]
    returns.  After the first [next()] a later world no longer changes the
    entities visited: each [next()] yields the head of what is left of the
    match list with the instances of the world of that moment, or raises
    [ComponentNotFound]. *)
Theorem C2_view_matches_at_first_consumption
    (w_call w : World.t) (c1 : ComponentType)
    (c2 c3 c4 c5 : option ComponentType) (extra : list ComponentType) :
  let ctypes := World.component_list c1 c2 c3 c4 c5 extra in
  let gen := World.view w_call c1 c2 c3 c4 c5 extra in
  let matched := ComponentStore.all_of (World._store w) ctypes in
  (forall entity,
      entity ∈ matched
      <-> forall ctype, ctype ∈ ctypes ->
            entity ∈ ComponentStore.entities_with (World._store w) ctype)
  /\ NoDup matched
  /\ World.next w gen = World.resume w ctypes matched
  /\ (matched = [] -> World.next w gen = (Finished, Returned None))
  /\ (ComponentStore.consistent (World._store w) ->
      no_none_instance (World._store w) ->
      World.consume w gen
      = (map (fun entity =>
                (entity,
                 map (ComponentStore.get (World._store w) entity) ctypes))
             matched,
         Returned tt))
  /\ (forall (w' : World.t) (entity : Z) (remaining : list Z),
      World.next w' (Suspended ctypes (entity :: remaining))
      = (Suspended ctypes remaining,
         Returned
           (Some (entity,
                  map (ComponentStore.get (World._store w') entity) ctypes)))
      \/ World.next w' (Suspended ctypes (entity :: remaining))
         = (Finished, Raised ComponentNotFound)).
Proof.
  intros ctypes gen matched. subst gen. unfold World.view. fold ctypes.
  repeat apply conj.
  - intros entity. subst matched. rewrite elem_of_all_of.
    split; [tauto|]. intros Hall. split; [done|exact Hall].
  - apply NoDup_all_of.
  - done.
  - intros Hempty.
    change (World.next w (Unstarted ctypes))
      with (World.resume w ctypes matched).
    by rewrite Hempty.
  - intros Hcons Hnone.
    change (World.consume w (Unstarted ctypes))
      with (World.drain w ctypes matched).
    apply drain_returns.
    intros entity ctype Hin Hctype. apply get_of_indexed; [done|done|].
    subst matched. apply elem_of_all_of in Hin as [_ Hall]. by apply Hall.
  - intros w' entity remaining. apply resume_cases.
Qed.

(** The view of [Position] and [Velocity] over the world of the examples,
    created on a new world and consumed on that one, yields entity 1 with
    its two instances. *)
Lemma C2_view_consumed_later_witness :
  World.consume world_with_two_entities
    (World.view World.__init__ (Class "Position") (Some (Class "Velocity"))
       None None None [])
  = ([(1, [Object "Position" [0; 0]; Object "Velocity" [1; 2]])], Returned tt).
Proof.
  pose proof (C2_view_matches_at_first_consumption World.__init__
                world_with_two_entities (Class "Position")
                (Some (Class "Velocity")) None None None [])
    as (_ & _ & _ & _ & Hconsume & _).
  rewrite Hconsume; [vm_compute; reflexivity| |].
  - apply reachable_store_consistent, world_with_two_entities_reachable.
  - intros entity ctype. unfold ComponentStore.instance_at.
    change (World._store world_with_two_entities)
      with (ComponentStore.run_ops ComponentStore.__init__
              [ComponentStore.OpUpsert 1 (Object "Position" [0; 0]);
               ComponentStore.OpUpsert 1 (Object "Velocity" [1; 2])]).
    simpl. fold (ComponentStore.instance_at
              (fst (ComponentStore.upsert
                      (fst (ComponentStore.upsert ComponentStore.__init__ 1
                              (Object "Position" [0; 0])))
                      1 (Object "Velocity" [1; 2]))) entity ctype).
    rewrite !instance_at_upsert.
    repeat (destruct (decide _); [done|]).
    unfold ComponentStore.instance_at. simpl. by rewrite lookup_empty.
Defined.

(** C9. [clear] leaves the allocator as it was: the alive set, the free list
    and the counter of the world after [clear], returning or raising, are
    those of the world before, so the next [create_entity] returns the id it
    would have returned without the [clear].  In a world whose store is
    consistent, as is the store of every world reached through the methods
    of [World] ([reachable_store_consistent]), [clear] returns, and any
    view then issued and consumed yields nothing. *)
Theorem C9_clear_leaves_the_allocator_alone (w : World.t) :
  let after := fst (fst (World.clear w)) in
  EntityManager._alive (World.entities after)
  = EntityManager._alive (World.entities w)
  /\ EntityManager._free (World.entities after)
     = EntityManager._free (World.entities w)
  /\ EntityManager._next_id (World.entities after)
     = EntityManager._next_id (World.entities w)
  /\ snd (World.create_entity after) = snd (World.create_entity w)
  /\ (World.reachable w -> ComponentStore.consistent (World._store w))
  /\ (ComponentStore.consistent (World._store w) ->
      snd (World.clear w) = Returned tt
      /\ forall c1 c2 c3 c4 c5 extra,
          World.consume after (World.view after c1 c2 c3 c4 c5 extra)
          = ([], Returned tt)).
Proof.
  intros after. pose proof (clear_entities w) as Hent. fold after in Hent.
  unfold World.create_entity. rewrite Hent.
  repeat apply conj; try done.
  - by destruct (EntityManager.create _).
  - apply reachable_store_consistent.
  - intros Hcons. destruct (clear_returns w Hcons) as [Hret Hstore].
    fold after in Hstore. split; [done|].
    intros c1 c2 c3 c4 c5 extra. unfold World.view, World.consume.
    by rewrite Hstore, all_of_init.
Qed.

(** In the world of the examples ids 1 and 2 are taken: after [clear] the
    next id is 3, as before, and the view of [Position] is empty. *)
Lemma C9_clear_then_create_witness :
  snd (World.clear world_with_two_entities) = Returned tt
  /\ snd (World.create_entity (fst (fst (World.clear world_with_two_entities))))
     = 3
  /\ World.consume (fst (fst (World.clear world_with_two_entities)))
       (World.view (fst (fst (World.clear world_with_two_entities)))
          (Class "Position") None None None None [])
     = ([], Returned tt).
Proof.
  pose proof (C9_clear_leaves_the_allocator_alone world_with_two_entities)
    as (_ & _ & _ & Hcreate & Hconsistent & Hview).
  destruct Hview as [Hret Hempty].
  { apply Hconsistent, world_with_two_entities_reachable. }
  repeat apply conj; [done| |apply Hempty].
  rewrite Hcreate. vm_compute. reflexivity.
Defined.

(** C10. [clear] destroys no entity.  Every entity alive before [clear] is
    alive after it, and a component call on it does not raise
    [EntityNotFound], whether [clear] returned or raised.  When the store
    was consistent, as it is in every world reached through the methods of
    [World], [clear] returns, the entity carries no component ([has] is
    [False], [get] is [None]), and [add_component] on it returns. *)
Theorem C10_clear_keeps_entities_alive (w : World.t) (E : Z) :
  World.is_alive w E = true ->
  let after := fst (fst (World.clear w)) in
  World.is_alive after E = true
  /\ (forall component,
      snd (World.add_component after E component) <> Raised EntityNotFound)
  /\ (World.reachable w -> ComponentStore.consistent (World._store w))
  /\ (ComponentStore.consistent (World._store w) ->
      snd (World.clear w) = Returned tt
      /\ (forall ctype,
          World.has_component after E ctype = (after, Returned false))
      /\ (forall ctype,
          World.get_component after E ctype = (after, Returned PyNone))
      /\ (forall component,
          snd (World.add_component after E component) = Returned tt)).
Proof.
  intros Halive after.
  assert (World.is_alive after E = true) as Hafter.
  { unfold World.is_alive, after. by rewrite clear_entities. }
  split; [done|].
  pose proof (require_alive_of_alive after E Hafter) as Hcheck.
  unfold World.add_component, World.has_component, World.get_component.
  rewrite Hcheck. split; [|split].
  - intros component.
    destruct (add_cases (World._store after) E component)
      as [[_ ->]|[_ ->]]; [done|].
    pose proof (upsert_returns (World._store after) E component) as Hret.
    destruct (ComponentStore.upsert _ _ _); simpl in *. by rewrite Hret.
  - apply reachable_store_consistent.
  - intros Hcons. destruct (clear_returns w Hcons) as [Hret Hstore].
    fold after in Hstore. split; [done|]. rewrite Hstore.
    assert (forall ctype,
               ComponentStore.instance_at ComponentStore.__init__ E ctype
               = None) as Hnone.
    { intros ctype. unfold ComponentStore.instance_at; simpl.
      rewrite lookup_empty; simpl. by rewrite lookup_empty. }
    repeat apply conj.
    + intros ctype.
      assert (ComponentStore.has ComponentStore.__init__ E ctype = false)
        as ->; [|done].
      apply not_true_is_false. rewrite has_in_store.
      unfold ComponentStore.in_store. rewrite Hnone. by intros [].
    + intros ctype. by rewrite get_instance_at, Hnone.
    + intros component. rewrite add_returns.
      * pose proof (upsert_returns ComponentStore.__init__ E component)
          as Hup.
        destruct (ComponentStore.upsert _ _ _); simpl in *. by rewrite Hup.
      * unfold ComponentStore.in_store. rewrite Hnone. by intros [].
Qed.

(** Entity 1 of the world of the examples survives [clear], without its
    components, and can be given a new [Position]. *)
Lemma C10_entity_survives_clear_witness :
  World.is_alive (fst (fst (World.clear world_with_two_entities))) 1 = true
  /\ snd (World.clear world_with_two_entities) = Returned tt
  /\ World.has_component (fst (fst (World.clear world_with_two_entities))) 1
       (Class "Position")
     = (fst (fst (World.clear world_with_two_entities)), Returned false)
  /\ snd (World.add_component
            (fst (fst (World.clear world_with_two_entities))) 1
            (Object "Position" [9; 9])) = Returned tt.
Proof.
  destruct (C10_clear_keeps_entities_alive world_with_two_entities 1)
    as (Halive & _ & Hconsistent & Hcleared); [vm_compute; reflexivity|].
  destruct Hcleared as (Hret & Hhas & _ & Hadd).
  { apply Hconsistent, world_with_two_entities_reachable. }
  repeat apply conj; [done|done|apply Hhas|apply Hadd].
Defined.

(** X1. [destroy_entity] twice: whatever the first call did, the second
    call on the same id raises [EntityNotFound] and leaves the world as the
    first call left it. *)
Theorem X1_destroy_entity_twice (w : World.t) (entity : Z) :
  let once := fst (World.destroy_entity w entity) in
  World.destroy_entity once entity = (once, Raised EntityNotFound).
Proof.
  intros once.
  assert (World.is_alive once entity = false) as Hdead.
  { subst once. unfold World.destroy_entity, World.is_alive,
      EntityManager.destroy, EntityManager.is_alive.
    destruct (decide (entity ∈ _)) as [Hin|Hout]; simpl.
    - destruct (ComponentStore.remove_all_for_entity _ _) as [store []];
        simpl; apply bool_decide_eq_false;
        intros [_ Hne]%elem_of_difference; apply Hne;
        by apply elem_of_singleton.
    - by apply bool_decide_eq_false. }
  unfold World.destroy_entity. unfold World.is_alive in Hdead.
  rewrite (destroy_dead _ _ Hdead). simpl. by destruct once.
Qed.

(** X2. Strictness.  On an alive entity that already carries an instance of
    the type, [add_component] raises [ComponentAlreadyExists] and changes
    nothing, while [upsert_component] returns and the new instance is the
    one [get_component] then returns. *)
Theorem X2_add_is_strict_upsert_overwrites
    (w : World.t) (entity : Z) (component : ComponentInstance) :
  World.is_alive w entity = true ->
  ComponentStore.has (World._store w) entity (type component) = true ->
  World.add_component w entity component = (w, Raised ComponentAlreadyExists)
  /\ snd (World.upsert_component w entity component) = Returned tt
  /\ World.get_component (fst (World.upsert_component w entity component))
       entity (type component)
     = (fst (World.upsert_component w entity component), Returned component).
Proof.
  intros Halive Hhas%has_in_store.
  assert (World.is_alive (fst (World.upsert_component w entity component))
            entity = true) as Halive'.
  { unfold World.upsert_component.
    rewrite (require_alive_of_alive w entity Halive).
    by destruct (ComponentStore.upsert _ _ _). }
  unfold World.get_component.
  rewrite (require_alive_of_alive _ _ Halive').
  unfold World.add_component, World.upsert_component.
  rewrite (require_alive_of_alive w entity Halive).
  rewrite (add_raises _ _ _ Hhas).
  pose proof (upsert_returns (World._store w) entity component) as Hret.
  pose proof (instance_at_upsert (World._store w) entity component entity
                (type component)) as Hget.
  destruct (ComponentStore.upsert _ _ _) as [store out]; simpl in *.
  rewrite get_instance_at, Hget, decide_True by done.
  repeat split; [by destruct w|done].
Qed.

(** Entity 1 of the world of the examples gets a second [Position]. *)
Lemma X2_second_position_witness :
  World.add_component world_with_two_entities 1 (Object "Position" [4; 2])
  = (world_with_two_entities, Raised ComponentAlreadyExists)
  /\ snd (World.upsert_component world_with_two_entities 1
            (Object "Position" [4; 2])) = Returned tt
  /\ World.get_component
       (fst (World.upsert_component world_with_two_entities 1
               (Object "Position" [4; 2])))
       1 (Class "Position")
     = (fst (World.upsert_component world_with_two_entities 1
               (Object "Position" [4; 2])),
        Returned (Object "Position" [4; 2])).
Proof.
  apply (X2_add_is_strict_upsert_overwrites world_with_two_entities 1
           (Object "Position" [4; 2])); vm_compute; reflexivity.
Defined.

(** * Further properties of the code *)

(** ** Entity allocator: [create], [destroy], [__len__], [__iter__] *)

Section AllocatorMore.
Import EntityManager.

Lemma is_alive_true (self : t) (x : Z) :
  is_alive self x = true <-> x ∈ _alive self.
Proof. apply bool_decide_eq_true. Qed.

Lemma is_alive_false (self : t) (x : Z) :
  is_alive self x = false <-> x ∉ _alive self.
Proof. apply bool_decide_eq_false. Qed.

Lemma is_alive_ext (s1 s2 : t) (x : Z) :
  (x ∈ _alive s1 <-> x ∈ _alive s2) -> is_alive s1 x = is_alive s2 x.
Proof.
  intros Hiff. unfold is_alive.
  destruct (decide (x ∈ _alive s2)) as [Hin|Hout].
  - rewrite !bool_decide_eq_true_2; tauto.
  - rewrite !bool_decide_eq_false_2; tauto.
Qed.

(** What [create] returns is in the pool or is the counter. *)
Lemma create_result (self : t) :
  let eid := snd (create self) in
  _alive (fst (create self)) = {[eid]} ∪ _alive self
  /\ (eid ∈ _free self \/ (_free self = [] /\ eid = _next_id self)).
Proof.
  destruct (snoc_cases (_free self)) as [Hfree|(l & y & Hfree)].
  - rewrite (create_mints self Hfree). simpl. split; [done|]. by right.
  - rewrite (create_recycles self l y Hfree). simpl. split; [done|].
    left. rewrite Hfree, elem_of_app, list_elem_of_singleton. by right.
Qed.

End AllocatorMore.

(** X3. In every reachable allocator state [create] hands out an id that
    is not in use: the id it returns is positive and was not alive, it is
    alive afterwards, no other id changes its liveness, and [__len__] grows
    by one. *)
Theorem X3_create_returns_an_id_not_in_use (self : EntityManager.t) :
  EntityManager.reachable self ->
  let eid := snd (EntityManager.create self) in
  let after := fst (EntityManager.create self) in
  1 <= eid
  /\ EntityManager.is_alive self eid = false
  /\ EntityManager.is_alive after eid = true
  /\ (forall x, x <> eid ->
        EntityManager.is_alive after x = EntityManager.is_alive self x)
  /\ EntityManager.__len__ after = S (EntityManager.__len__ self).
Proof.
  intros Hreach eid after.
  destruct (reachable_allocator_inv self Hreach)
    as (Hpos & Hrange & _ & Hdisj).
  destruct (create_result self) as [Halive Hfrom].
  fold eid in Halive, Hfrom. fold after in Halive.
  assert (eid ∉ EntityManager._alive self) as Hfresh.
  { destruct Hfrom as [Hpool|[Hempty Hnext]].
    - intros Hin. by apply (Hdisj eid).
    - intros Hin. assert (1 <= eid < EntityManager._next_id self)
        by (apply Hrange; by left). lia. }
  repeat apply conj.
  - destruct Hfrom as [Hpool|[_ ->]]; [|done].
    assert (1 <= eid < EntityManager._next_id self)
      by (apply Hrange; by right). lia.
  - by apply is_alive_false.
  - apply is_alive_true. rewrite Halive, elem_of_union, elem_of_singleton.
    by left.
  - intros x Hne. apply is_alive_ext.
    rewrite Halive, elem_of_union, elem_of_singleton. tauto.
  - unfold EntityManager.__len__. rewrite Halive, size_union, size_singleton.
    + done.
    + intros x ->%elem_of_singleton. exact Hfresh.
Qed.

(** After ids 1 and 2 were created and 1 destroyed, [create] returns 1. *)
Lemma X3_create_after_destroy_witness :
  EntityManager.is_alive
    (fst (EntityManager.destroy
            (fst (EntityManager.create
                    (fst (EntityManager.create EntityManager.__init__)))) 1))
    (snd (EntityManager.create
            (fst (EntityManager.destroy
                    (fst (EntityManager.create
                            (fst (EntityManager.create
                                    EntityManager.__init__)))) 1))))
  = false.
Proof.
  apply (X3_create_returns_an_id_not_in_use
           (fst (EntityManager.destroy
                   (fst (EntityManager.create
                           (fst (EntityManager.create
                                   EntityManager.__init__)))) 1))).
  apply EntityManager.reachable_destroy, EntityManager.reachable_create,
    EntityManager.reachable_create, EntityManager.reachable_init.
Defined.

(** X4. In every reachable allocator state the ids handed out so far are
    exactly [1 .. _next_id - 1]; each of them is either alive or in the free
    list, never both, and the free list holds no id twice: a freed id is
    never freed again while it waits for reuse. *)
Theorem X4_alive_and_free_partition_the_issued_ids (self : EntityManager.t) :
  EntityManager.reachable self ->
  1 <= EntityManager._next_id self
  /\ (forall x,
        1 <= x < EntityManager._next_id self
        <-> EntityManager.is_alive self x = true
            \/ x ∈ EntityManager._free self)
  /\ (forall x,
        EntityManager.is_alive self x = true ->
        x ∉ EntityManager._free self)
  /\ NoDup (EntityManager._free self).
Proof.
  intros Hreach.
  destruct (reachable_allocator_inv self Hreach)
    as (Hpos & Hrange & Hnodup & Hdisj).
  repeat apply conj; try done.
  - intros x. by rewrite is_alive_true.
  - intros x Hx%is_alive_true. by apply Hdisj.
Qed.

(** Three ids created, the second destroyed. *)
Lemma X4_partition_witness :
  NoDup (EntityManager._free
           (fst (EntityManager.destroy
                   (fst (EntityManager.create
                           (fst (EntityManager.create
                                   (fst (EntityManager.create
                                           EntityManager.__init__)))))) 2))).
Proof.
  apply (X4_alive_and_free_partition_the_issued_ids
           (fst (EntityManager.destroy
                   (fst (EntityManager.create
                           (fst (EntityManager.create
                                   (fst (EntityManager.create
                                           EntityManager.__init__)))))) 2))).
  apply EntityManager.reachable_destroy, EntityManager.reachable_create,
    EntityManager.reachable_create, EntityManager.reachable_create,
    EntityManager.reachable_init.
Defined.

(** X5. [destroy] never raises and reports what it did: it returns [True]
    exactly when the id was alive; afterwards the id is not alive and no
    other id changed its liveness; on an alive id [__len__] shrinks by one
    and the id is appended to the free list, on any other id the allocator
    is left as it was.  [__iter__] lists each alive id exactly once, as many
    ids as [__len__] counts. *)
Theorem X5_destroy_reports_liveness (self : EntityManager.t) (entity : Z) :
  let after := fst (EntityManager.destroy self entity) in
  snd (EntityManager.destroy self entity) = EntityManager.is_alive self entity
  /\ EntityManager.is_alive after entity = false
  /\ (forall x, x <> entity ->
        EntityManager.is_alive after x = EntityManager.is_alive self x)
  /\ (EntityManager.is_alive self entity = true ->
      S (EntityManager.__len__ after) = EntityManager.__len__ self
      /\ EntityManager._free after = EntityManager._free self ++ [entity])
  /\ (EntityManager.is_alive self entity = false -> after = self)
  /\ NoDup (EntityManager.__iter__ self)
  /\ (forall x, x ∈ EntityManager.__iter__ self
                <-> EntityManager.is_alive self x = true)
  /\ length (EntityManager.__iter__ self) = EntityManager.__len__ self.
Proof.
  intros after. subst after.
  destruct (EntityManager.is_alive self entity) eqn:Halive.
  - rewrite (destroy_alive self entity Halive). simpl.
    apply is_alive_true in Halive.
    repeat apply conj; try done.
    + apply is_alive_false. simpl. rewrite elem_of_difference,
        elem_of_singleton. tauto.
    + intros x Hne. apply is_alive_ext. simpl.
      rewrite elem_of_difference, elem_of_singleton. tauto.
    + intros _. split; [|done]. unfold EntityManager.__len__. simpl.
      rewrite (size_difference (EntityManager._alive self) {[entity]})
        by (intros x ->%elem_of_singleton; done).
      rewrite (size_singleton (C := gset Z) entity).
      assert (size (EntityManager._alive self) <> 0)%nat; [|lia].
      intros Hzero%size_empty_inv. apply (Hzero entity) in Halive.
      by apply elem_of_empty in Halive.
    + unfold EntityManager.__iter__. apply NoDup_elements.
    + intros x. unfold EntityManager.__iter__.
      by rewrite elem_of_elements, is_alive_true.
  - rewrite (destroy_dead self entity Halive). simpl.
    repeat apply conj; try done.
    + unfold EntityManager.__iter__. apply NoDup_elements.
    + intros x. unfold EntityManager.__iter__.
      by rewrite elem_of_elements, is_alive_true.
Qed.

(** Destroying id 1 of two created ids. *)
Lemma X5_destroy_alive_witness :
  S (EntityManager.__len__
       (fst (EntityManager.destroy
               (fst (EntityManager.create
                       (fst (EntityManager.create EntityManager.__init__))))
               1)))
  = EntityManager.__len__
      (fst (EntityManager.create
              (fst (EntityManager.create EntityManager.__init__))))
  /\ EntityManager._free
       (fst (EntityManager.destroy
               (fst (EntityManager.create
                       (fst (EntityManager.create EntityManager.__init__))))
               1))
     = EntityManager._free
         (fst (EntityManager.create
                 (fst (EntityManager.create EntityManager.__init__))))
       ++ [1].
Proof.
  apply (X5_destroy_reports_liveness
           (fst (EntityManager.create
                   (fst (EntityManager.create EntityManager.__init__)))) 1).
  vm_compute. reflexivity.
Defined.

(** ** Component store: pruning, state round trips, frames *)

Section IndexMore.
Import ComponentStore.
Context `{Countable K} `{Countable X}.
Implicit Types (index : gmap K (gset X)) (key : K) (x : X).

Lemma index_add_nonempty index key x key' (s : gset X) :
  (forall k s', index !! k = Some s' -> s' <> ∅) ->
  index_add index key x !! key' = Some s -> s <> ∅.
Proof.
  intros Hne. unfold index_add.
  pose proof (setdefault_lookup_ne index key key' ∅) as Hother.
  destruct (setdefault index key ∅) as [index' s0]; simpl in *.
  destruct (decide (key' = key)) as [->|Hk].
  - rewrite lookup_insert_eq. intros [= <-] Hempty.
    assert (x ∈ ({[x]} ∪ s0 : gset X)) as Hin
      by (apply elem_of_union; left; by apply elem_of_singleton).
    rewrite Hempty in Hin. by apply elem_of_empty in Hin.
  - rewrite lookup_insert_ne by done. rewrite Hother by done. apply Hne.
Qed.

Lemma index_discard_nonempty index key x key' (s : gset X) :
  (forall k s', index !! k = Some s' -> s' <> ∅) ->
  index_discard index key x !! key' = Some s -> s <> ∅.
Proof.
  intros Hne. unfold index_discard.
  destruct (index !! key) as [s0|] eqn:Hs0; [|apply Hne].
  destruct (decide (s0 = ∅)); [apply Hne|].
  destruct (decide (s0 ∖ {[x]} = ∅)) as [Hempty|Hleft].
  - destruct (decide (key' = key)) as [->|Hk].
    + by rewrite lookup_delete_eq.
    + rewrite lookup_delete_ne by done. apply Hne.
  - destruct (decide (key' = key)) as [->|Hk].
    + rewrite lookup_insert_eq. by intros [= <-].
    + rewrite lookup_insert_ne by done. apply Hne.
Qed.

(** Discarding what was just added gives the index back, when the element
    is new and the index holds no empty set. *)
Lemma index_discard_add index key x :
  (forall s, index !! key = Some s -> s <> ∅) ->
  x ∉ default ∅ (index !! key) ->
  index_discard (index_add index key x) key x = index.
Proof.
  intros Hne Hnew. unfold index_add, setdefault, index_discard.
  destruct (index !! key) as [s|] eqn:Hs; simpl in *.
  - rewrite lookup_insert_eq.
    assert (({[x]} ∪ s) ∖ {[x]} = s) as Hback.
    { apply set_eq. intros y.
      rewrite elem_of_difference, elem_of_union, elem_of_singleton.
      split; [tauto|]. intros Hy. split; [by right|]. by intros ->. }
    rewrite decide_False.
    2:{ intros Hempty. assert (x ∈ ({[x]} ∪ s : gset X)) as Hin
          by (apply elem_of_union; left; by apply elem_of_singleton).
        rewrite Hempty in Hin. by apply elem_of_empty in Hin. }
    rewrite Hback. rewrite decide_False by (by apply Hne).
    rewrite insert_insert_eq. by apply insert_id.
  - rewrite lookup_insert_eq.
    rewrite decide_False.
    2:{ intros Hempty. assert (x ∈ ({[x]} ∪ ∅ : gset X)) as Hin
          by (apply elem_of_union; left; by apply elem_of_singleton).
        rewrite Hempty in Hin. by apply elem_of_empty in Hin. }
    rewrite decide_True.
    2:{ apply set_eq. intros y.
        rewrite elem_of_difference, elem_of_union, elem_of_singleton,
          elem_of_empty. tauto. }
    rewrite delete_insert_eq. by apply delete_insert_id.
Qed.

End IndexMore.

Section StoreMore.
Import ComponentStore.
Implicit Types (self : t) (entity : Z) (ctype : ComponentType)
  (component : ComponentInstance).

Lemma no_empty_entries_init : no_empty_entries __init__.
Proof. repeat split; simpl; intros ? ?; by rewrite lookup_empty. Qed.

Lemma no_empty_entries_upsert self entity component :
  no_empty_entries self ->
  no_empty_entries (fst (upsert self entity component)).
Proof.
  intros (Hbc & Hic & Hie). unfold upsert.
  pose proof (fun ctype =>
                setdefault_lookup_ne (_by_component self) (type component)
                  ctype ∅) as Hother.
  destruct (setdefault (_by_component self) (type component) ∅)
    as [by_component entities]; simpl in *.
  split; [|split]; simpl.
  - intros ctype m. destruct (decide (ctype = type component)) as [->|Hc].
    + rewrite lookup_insert_eq. intros [= <-]. apply insert_non_empty.
    + rewrite lookup_insert_ne by done. rewrite Hother by done. apply Hbc.
  - intros ctype s. by apply index_add_nonempty.
  - intros e s. by apply index_add_nonempty.
Qed.

Lemma no_empty_entries_add self entity component :
  no_empty_entries self -> no_empty_entries (fst (add self entity component)).
Proof.
  intros Hne.
  destruct (add_cases self entity component) as [[_ ->]|[_ ->]]; [done|].
  by apply no_empty_entries_upsert.
Qed.

Lemma no_empty_entries_remove self entity ctype :
  no_empty_entries self -> no_empty_entries (fst (remove self entity ctype)).
Proof.
  intros (Hbc & Hic & Hie). unfold remove.
  destruct (_by_component self !! ctype) as [entities|] eqn:Hc;
    [|by repeat split].
  destruct (decide (entities = ∅)); [by repeat split|].
  destruct (decide (is_Some (entities !! entity))); [|by repeat split].
  split; [|split]; simpl.
  - intros ctype' m.
    destruct (decide (delete entity entities = ∅)) as [Hempty|Hleft].
    + destruct (decide (ctype' = ctype)) as [->|Hne].
      * by rewrite lookup_delete_eq.
      * rewrite lookup_delete_ne by done. apply Hbc.
    + destruct (decide (ctype' = ctype)) as [->|Hne].
      * rewrite lookup_insert_eq. by intros [= <-].
      * rewrite lookup_insert_ne by done. apply Hbc.
  - intros ctype' s. by apply index_discard_nonempty.
  - intros e s. by apply index_discard_nonempty.
Qed.

Lemma no_empty_entries_remove_each self entity ctypes removed :
  no_empty_entries self ->
  no_empty_entries (fst (remove_each self entity ctypes removed)).
Proof.
  revert self removed.
  induction ctypes as [|ctype rest IH]; intros self removed Hne; [done|].
  simpl. pose proof (no_empty_entries_remove self entity ctype Hne) as Hstep.
  destruct (remove self entity ctype) as [self' [[]|exc]]; simpl in *;
    [by apply IH|done].
Qed.

Lemma no_empty_entries_run_ops self ops :
  no_empty_entries self -> no_empty_entries (run_ops self ops).
Proof.
  revert self. induction ops as [|op ops IH]; intros self Hne; [done|].
  simpl. apply IH. destruct op; simpl.
  - by apply no_empty_entries_add.
  - by apply no_empty_entries_upsert.
  - by apply no_empty_entries_remove.
  - by apply no_empty_entries_remove_each.
  - apply no_empty_entries_init.
Qed.

(** [remove] undoes [upsert] of a pair the store did not hold. *)
Lemma remove_upsert self entity component :
  no_empty_entries self -> consistent self ->
  ~ in_store self entity (type component) ->
  remove (fst (upsert self entity component)) entity (type component)
  = (self, Returned tt).
Proof.
  intros (Hbc & Hic & Hie) Hcons Hout.
  destruct (Hcons entity (type component)) as [Hstore Hindex].
  assert (entity ∉ default ∅ (_index_by_component self !! type component))
    as Hci by (intros Hin; by apply Hout, Hstore).
  assert (type component ∉ default ∅ (_index_by_entity self !! entity))
    as Hei by (intros Hin; by apply Hout, Hstore, Hindex).
  unfold in_store, instance_at in Hout.
  unfold upsert, setdefault, remove.
  destruct (_by_component self !! type component) as [entities|] eqn:Hc;
    simpl in *.
  - assert (entities !! entity = None) as Hfree.
    { destruct (entities !! entity) eqn:He; [|done]. destruct Hout. eauto. }
    rewrite lookup_insert_eq.
    rewrite decide_False by apply insert_non_empty.
    rewrite decide_True by (rewrite lookup_insert_eq; eauto).
    rewrite (delete_insert_id entities entity component Hfree).
    rewrite decide_False by (by apply (Hbc (type component))).
    rewrite insert_insert_eq, (insert_id _ _ _ Hc).
    rewrite !index_discard_add; [by destruct self|eauto..].
  - rewrite lookup_insert_eq.
    rewrite decide_False by apply insert_non_empty.
    rewrite decide_True by (rewrite lookup_insert_eq; eauto).
    rewrite (delete_insert_id (∅ : gmap Z ComponentInstance) entity component)
      by apply lookup_empty.
    rewrite decide_True by done.
    rewrite delete_insert_eq, (delete_insert_id _ _ _ Hc).
    rewrite !index_discard_add; [by destruct self|eauto..].
Qed.

End StoreMore.

(** X6. [remove] prunes.  After every sequence of [add], [upsert],
    [remove], [remove_all_for_entity] and [clear] calls on a new store no
    component type is left with an empty entity mapping, no component type
    with an empty entity set, and no entity with an empty type set. *)
Theorem X6_no_empty_entry_is_retained (ops : list ComponentStore.Op) :
  let store := ComponentStore.run_ops ComponentStore.__init__ ops in
  (forall ctype entities,
      ComponentStore._by_component store !! ctype = Some entities ->
      entities <> ∅)
  /\ (forall ctype s,
      ComponentStore._index_by_component store !! ctype = Some s -> s <> ∅)
  /\ (forall entity s,
      ComponentStore._index_by_entity store !! entity = Some s -> s <> ∅).
Proof.
  intros store.
  exact (no_empty_entries_run_ops ComponentStore.__init__ ops
           no_empty_entries_init).
Qed.

(** After [Position] was attached to entities 1 and 2 and detached from
    entity 1, the mapping of [Position] is the one of entity 2. *)
Lemma X6_pruned_store_witness :
  {[ 2 := Object "Position" [2; 2] ]} <> (∅ : gmap Z ComponentInstance).
Proof.
  apply (proj1 (X6_no_empty_entry_is_retained
                  [ComponentStore.OpAdd 1 (Object "Position" [1; 1]);
                   ComponentStore.OpAdd 2 (Object "Position" [2; 2]);
                   ComponentStore.OpRemove 1 (Class "Position")])
           (Class "Position")).
  vm_compute. reflexivity.
Defined.

(** X7. Attach and detach is a round trip of the whole store.  In a store
    reached by the five mutators from a new store that does not hold the
    pair, [add(E, X)] followed by [remove(E, type(X))] returns and gives
    back exactly the store before the [add]: all three dictionaries, with
    nothing left behind. *)
Theorem X7_add_then_remove_restores_the_store
    (ops : list ComponentStore.Op) (E : Z) (X : ComponentInstance) :
  let store := ComponentStore.run_ops ComponentStore.__init__ ops in
  ComponentStore.has store E (type X) = false ->
  snd (ComponentStore.add store E X) = Returned tt
  /\ ComponentStore.remove (fst (ComponentStore.add store E X)) E (type X)
     = (store, Returned tt).
Proof.
  intros store Hhas.
  assert (~ ComponentStore.in_store store E (type X)) as Hout.
  { rewrite <- has_in_store. by rewrite Hhas. }
  rewrite (add_returns store E X Hout). split; [apply upsert_returns|].
  apply remove_upsert; [|by apply consistent_run_ops, consistent_init|done].
  by apply no_empty_entries_run_ops, no_empty_entries_init.
Qed.

(** A [Velocity] is attached to and detached from entity 2 of the store of
    three. *)
Lemma X7_round_trip_witness :
  ComponentStore.remove
    (fst (ComponentStore.add store_of_three 2 (Object "Y" [2])))
    2 (Class "Y")
  = (store_of_three, Returned tt).
Proof.
  apply (X7_add_then_remove_restores_the_store
           [ComponentStore.OpAdd 1 (Object "X" [1]);
            ComponentStore.OpAdd 1 (Object "Y" [1]);
            ComponentStore.OpAdd 2 (Object "X" [2]);
            ComponentStore.OpAdd 3 (Object "X" [3]);
            ComponentStore.OpAdd 3 (Object "Y" [3])] 2 (Object "Y" [2])).
  vm_compute. reflexivity.
Defined.

Section StoreQueriesMore.
Import ComponentStore.
Implicit Types (self : t) (entity : Z) (ctype : ComponentType)
  (component : ComponentInstance).

Lemma has_instance_at self entity ctype :
  has self entity ctype = bool_decide (is_Some (instance_at self entity ctype)).
Proof. reflexivity. Qed.

Lemma instance_at_remove_each self entity ctypes removed entity' ctype' :
  NoDup ctypes ->
  (forall ctype, ctype ∈ ctypes -> in_store self entity ctype) ->
  instance_at (fst (remove_each self entity ctypes removed)) entity' ctype'
  = if decide (entity' = entity /\ ctype' ∈ ctypes)
    then None else instance_at self entity' ctype'.
Proof.
  revert self removed.
  induction ctypes as [|ctype rest IH]; intros self removed Hnodup Hall.
  - simpl. rewrite decide_False; [done|]. intros [_ Hin].
    by apply elem_of_nil in Hin.
  - apply NoDup_cons in Hnodup as [Hfresh Hnodup].
    assert (in_store self entity ctype) as Hin
      by (apply Hall, elem_of_cons; by left).
    simpl. pose proof (remove_returns self entity ctype Hin) as Hret.
    pose proof (fun c => in_store_remove self entity ctype entity c Hin)
      as Hleft.
    pose proof (instance_at_remove self entity ctype entity' ctype' Hin)
      as Hstep.
    destruct (remove self entity ctype) as [self' out]; simpl in *.
    subst out. rewrite IH; [|done|].
    2:{ intros c Hc. apply Hleft. split.
        - intros [_ ->]. done.
        - apply Hall, elem_of_cons. by right. }
    rewrite Hstep.
    destruct (decide (entity' = entity /\ ctype' ∈ rest)) as [[He Hc]|Hn1].
    { rewrite decide_True; [done|]. split; [done|].
      apply elem_of_cons. by right. }
    destruct (decide (entity' = entity /\ ctype' = ctype)) as [[He ->]|Hn2].
    { rewrite decide_True; [done|]. split; [done|].
      apply elem_of_cons. by left. }
    rewrite decide_False; [done|].
    intros [He [->|Hc]%elem_of_cons]; tauto.
Qed.

Lemma index_add_idemp `{Countable K} `{Countable X}
    (index : gmap K (gset X)) (key : K) (x : X) :
  index_add (index_add index key x) key x = index_add index key x.
Proof.
  unfold index_add, setdefault.
  destruct (index !! key) as [s|] eqn:Hs; simpl;
    rewrite lookup_insert_eq, insert_insert_eq; f_equal;
    apply set_eq; intros y; rewrite !elem_of_union; tauto.
Qed.

Lemma entities_with_upsert self entity component ctype :
  entities_with (fst (upsert self entity component)) ctype
  = if decide (ctype = type component)
    then {[entity]} ∪ entities_with self ctype
    else entities_with self ctype.
Proof.
  apply set_eq. intros e.
  rewrite (entities_with_index _ e ctype), in_component_index_upsert.
  destruct (decide (ctype = type component)) as [->|Hne].
  - rewrite elem_of_union, elem_of_singleton, entities_with_index. tauto.
  - rewrite entities_with_index. tauto.
Qed.

Lemma entities_with_remove self entity ctype ctype' :
  in_store self entity ctype ->
  entities_with (fst (remove self entity ctype)) ctype'
  = if decide (ctype' = ctype)
    then entities_with self ctype' ∖ {[entity]}
    else entities_with self ctype'.
Proof.
  intros Hin. apply set_eq. intros e.
  rewrite (entities_with_index _ e ctype'), in_component_index_remove by done.
  destruct (decide (ctype' = ctype)) as [->|Hne].
  - rewrite elem_of_difference, elem_of_singleton, entities_with_index. tauto.
  - rewrite entities_with_index. tauto.
Qed.

End StoreQueriesMore.

(** X8. [remove_all_for_entity] on a consistent store returns the number of
    component types the entity carried; afterwards the entity carries none
    ([has] is [False] and [get] is [None] for every type), what every other
    entity carries is untouched, and a second call returns 0 and changes
    nothing. *)
Theorem X8_remove_all_for_entity_strips_one_entity
    (self : ComponentStore.t) (entity : Z) :
  ComponentStore.consistent self ->
  let after := fst (ComponentStore.remove_all_for_entity self entity) in
  snd (ComponentStore.remove_all_for_entity self entity)
  = Returned
      (Z.of_nat
         (size (default ∅ (ComponentStore._index_by_entity self !! entity))))
  /\ (forall ctype,
        ComponentStore.has after entity ctype = false
        /\ ComponentStore.get after entity ctype = PyNone)
  /\ (forall other ctype,
        other <> entity ->
        ComponentStore.has after other ctype
        = ComponentStore.has self other ctype
        /\ ComponentStore.get after other ctype
           = ComponentStore.get self other ctype)
  /\ ComponentStore.remove_all_for_entity after entity = (after, Returned 0).
Proof.
  intros Hcons after.
  set (ctypes := elements
                   (default ∅ (ComponentStore._index_by_entity self !! entity))).
  assert (NoDup ctypes) as Hnodup by apply NoDup_elements.
  assert (forall ctype,
             ctype ∈ ctypes -> ComponentStore.in_store self entity ctype)
    as Hall.
  { intros ctype Hin%elem_of_elements.
    destruct (Hcons entity ctype) as [Hstore Hindex].
    apply Hstore, Hindex, Hin. }
  assert (forall e c,
             ComponentStore.instance_at after e c
             = if decide (e = entity /\ c ∈ ctypes)
               then None else ComponentStore.instance_at self e c) as Hat.
  { intros e c. by apply instance_at_remove_each. }
  assert (forall c, ComponentStore.instance_at after entity c = None) as Hgone.
  { intros c. rewrite Hat.
    destruct (decide (entity = entity /\ c ∈ ctypes)) as [|Hn]; [done|].
    destruct (ComponentStore.instance_at self entity c) eqn:Hc; [|done].
    exfalso. apply Hn. split; [done|]. apply elem_of_elements.
    destruct (Hcons entity c) as [Hstore Hindex].
    apply Hindex, Hstore. unfold ComponentStore.in_store. by rewrite Hc. }
  repeat apply conj.
  - unfold ComponentStore.remove_all_for_entity. fold ctypes.
    rewrite (remove_each_returns self entity ctypes 0 Hnodup Hall).
    by rewrite Z.add_0_l.
  - intros ctype. rewrite has_instance_at, get_instance_at, Hgone.
    split; [|done]. apply bool_decide_eq_false. by intros [].
  - intros other ctype Hne.
    rewrite !has_instance_at, !get_instance_at, Hat.
    rewrite decide_False by tauto. done.
  - pose proof (consistent_remove_all_for_entity self entity Hcons) as Hcons'.
    fold after in Hcons'.
    assert (default ∅ (ComponentStore._index_by_entity after !! entity)
            = (∅ : gset ComponentType)) as Hempty.
    { apply set_eq. intros c. rewrite elem_of_empty. split; [|done].
      intros Hin. destruct (Hcons' entity c) as [Hstore Hindex].
      apply Hindex, Hstore in Hin. unfold ComponentStore.in_store in Hin.
      rewrite Hgone in Hin. by destruct Hin. }
    unfold ComponentStore.remove_all_for_entity at 1.
    by rewrite Hempty, elements_empty.
Qed.

(** Entity 1 of the store of three carries an [X] and a [Y]. *)
Lemma X8_strip_entity_witness :
  snd (ComponentStore.remove_all_for_entity store_of_three 1) = Returned 2.
Proof.
  apply (X8_remove_all_for_entity_strips_one_entity store_of_three 1).
  apply (consistent_run_ops ComponentStore.__init__ _ consistent_init).
Defined.

(** X9. The latest [upsert] wins, and nothing else remembers the earlier
    one: for two instances of one type, [upsert(E, X)] followed by
    [upsert(E, Y)] leaves exactly the store that [upsert(E, Y)] alone leaves,
    and [get] returns [Y]. *)
Theorem X9_second_upsert_replaces_the_first
    (self : ComponentStore.t) (E : Z) (X Y : ComponentInstance) :
  type X = type Y ->
  fst (ComponentStore.upsert (fst (ComponentStore.upsert self E X)) E Y)
  = fst (ComponentStore.upsert self E Y)
  /\ ComponentStore.get
       (fst (ComponentStore.upsert (fst (ComponentStore.upsert self E X)) E Y))
       E (type X)
     = Y.
Proof.
  intros Htype. split.
  - unfold ComponentStore.upsert, setdefault. rewrite Htype.
    destruct (ComponentStore._by_component self !! type Y) as [entities|];
      simpl; rewrite lookup_insert_eq; simpl;
      rewrite !insert_insert_eq, !index_add_idemp; reflexivity.
  - rewrite get_instance_at, Htype, instance_at_upsert.
    by rewrite decide_True.
Qed.

(** Two positions for entity 1 of a new store. *)
Lemma X9_two_positions_witness :
  fst (ComponentStore.upsert
         (fst (ComponentStore.upsert ComponentStore.__init__ 1
                 (Object "Position" [0; 0])))
         1 (Object "Position" [3; 4]))
  = fst (ComponentStore.upsert ComponentStore.__init__ 1
           (Object "Position" [3; 4])).
Proof.
  apply (X9_second_upsert_replaces_the_first ComponentStore.__init__ 1
           (Object "Position" [0; 0]) (Object "Position" [3; 4])).
  reflexivity.
Defined.

(** X10. A mutation of one pair never shows through another pair.  For
    every store, [add], [upsert] and [remove] on the pair (entity, type),
    returning or raising, leave [get] and [has] of every other pair as they
    were. *)
Theorem X10_mutating_one_pair_leaves_the_others
    (self : ComponentStore.t) (entity : Z) (component : ComponentInstance)
    (ctype : ComponentType) (other : Z) (other_type : ComponentType) :
  (~ (other = entity /\ other_type = type component) ->
   (ComponentStore.get (fst (ComponentStore.add self entity component))
      other other_type = ComponentStore.get self other other_type
    /\ ComponentStore.has (fst (ComponentStore.add self entity component))
         other other_type = ComponentStore.has self other other_type)
   /\ (ComponentStore.get (fst (ComponentStore.upsert self entity component))
         other other_type = ComponentStore.get self other other_type
       /\ ComponentStore.has
            (fst (ComponentStore.upsert self entity component))
            other other_type = ComponentStore.has self other other_type))
  /\ (~ (other = entity /\ other_type = ctype) ->
      ComponentStore.get (fst (ComponentStore.remove self entity ctype))
        other other_type = ComponentStore.get self other other_type
      /\ ComponentStore.has (fst (ComponentStore.remove self entity ctype))
           other other_type = ComponentStore.has self other other_type).
Proof.
  split.
  - intros Hne.
    assert (ComponentStore.instance_at
              (fst (ComponentStore.upsert self entity component))
              other other_type
            = ComponentStore.instance_at self other other_type) as Hup.
    { rewrite instance_at_upsert. by rewrite decide_False. }
    assert (ComponentStore.get
              (fst (ComponentStore.upsert self entity component))
              other other_type = ComponentStore.get self other other_type
            /\ ComponentStore.has
                 (fst (ComponentStore.upsert self entity component))
                 other other_type
               = ComponentStore.has self other other_type) as Hupsert.
    { by rewrite !has_instance_at, !get_instance_at, Hup. }
    split; [|done].
    destruct (add_cases self entity component) as [[_ ->]|[_ ->]]; done.
  - intros Hne.
    destruct (decide (ComponentStore.in_store self entity ctype)) as [Hin|Hout].
    + rewrite !has_instance_at, !get_instance_at.
      rewrite instance_at_remove by done. by rewrite decide_False.
    + by rewrite (remove_raises self entity ctype Hout).
Qed.

(** Detaching the [X] of entity 1 of the store of three leaves its [Y]. *)
Lemma X10_other_pair_witness :
  ComponentStore.get
    (fst (ComponentStore.remove store_of_three 1 (Class "X"))) 1 (Class "Y")
  = ComponentStore.get store_of_three 1 (Class "Y").
Proof.
  apply (proj2 (X10_mutating_one_pair_leaves_the_others store_of_three 1
                  PyNone (Class "X") 1 (Class "Y"))).
  intros [_ [=]].
Defined.

(** X11. [entities_with] follows the mutators.  After [upsert(E, X)], and
    after an [add(E, X)] that returns, the set of [type(X)] is the set
    before with [E] added; after a [remove(E, C)] that returns, the set of
    [C] is the set before without [E]; the set of every other type is
    unchanged, and a raising call changes no set. *)
Theorem X11_entities_with_follows_the_mutators
    (self : ComponentStore.t) (E : Z) (X : ComponentInstance)
    (C other : ComponentType) :
  ComponentStore.entities_with (fst (ComponentStore.upsert self E X)) other
  = (if decide (other = type X)
     then {[E]} ∪ ComponentStore.entities_with self other
     else ComponentStore.entities_with self other)
  /\ (snd (ComponentStore.add self E X) = Returned tt ->
      ComponentStore.entities_with (fst (ComponentStore.add self E X)) other
      = if decide (other = type X)
        then {[E]} ∪ ComponentStore.entities_with self other
        else ComponentStore.entities_with self other)
  /\ (snd (ComponentStore.remove self E C) = Returned tt ->
      ComponentStore.entities_with (fst (ComponentStore.remove self E C)) other
      = if decide (other = C)
        then ComponentStore.entities_with self other ∖ {[E]}
        else ComponentStore.entities_with self other)
  /\ (forall exc,
        snd (ComponentStore.add self E X) = Raised exc ->
        ComponentStore.entities_with (fst (ComponentStore.add self E X)) other
        = ComponentStore.entities_with self other)
  /\ (forall exc,
        snd (ComponentStore.remove self E C) = Raised exc ->
        ComponentStore.entities_with
          (fst (ComponentStore.remove self E C)) other
        = ComponentStore.entities_with self other).
Proof.
  repeat apply conj.
  - apply entities_with_upsert.
  - intros Hret%add_returned_inv. rewrite (add_returns self E X Hret).
    apply entities_with_upsert.
  - intros Hret. apply entities_with_remove.
    destruct (decide (ComponentStore.in_store self E C)) as [|Hout]; [done|].
    rewrite (remove_raises self E C Hout) in Hret. discriminate.
  - intros exc Hexc.
    destruct (ComponentStore.add self E X) as [self' out] eqn:Hadd.
    simpl in *. subst out. by apply add_raised_inv in Hadd as (-> & _).
  - intros exc Hexc.
    destruct (ComponentStore.remove self E C) as [self' out] eqn:Hrm.
    simpl in *. subst out. by apply remove_raised_inv in Hrm as (-> & _).
Qed.

(** Entity 2 of the store of three gets a [Y]. *)
Lemma X11_entities_with_witness :
  ComponentStore.entities_with
    (fst (ComponentStore.add store_of_three 2 (Object "Y" [2]))) (Class "Y")
  = {[2]} ∪ ComponentStore.entities_with store_of_three (Class "Y").
Proof.
  pose proof (X11_entities_with_follows_the_mutators store_of_three 2
                (Object "Y" [2]) (Class "Y") (Class "Y"))
    as (_ & Hadd & _).
  rewrite Hadd; [|vm_compute; reflexivity]. by rewrite decide_True.
Defined.

(** X12. [all_of] is an intersection: the order of the requested types and
    repeated types do not change the entities it yields, and it yields no
    entity twice.  It yields nothing when no type is requested or when one
    of the requested types has no holder, and requesting more types never
    adds an entity. *)
Theorem X12_all_of_is_an_intersection
    (store : ComponentStore.t) (ctypes ctypes' : list ComponentType) :
  ComponentStore.all_of store [] = []
  /\ NoDup (ComponentStore.all_of store ctypes)
  /\ ((forall ctype, ctype ∈ ctypes <-> ctype ∈ ctypes') ->
      ComponentStore.all_of store ctypes ≡ₚ ComponentStore.all_of store ctypes')
  /\ (forall ctype,
        ctype ∈ ctypes -> ComponentStore.entities_with store ctype = ∅ ->
        ComponentStore.all_of store ctypes = [])
  /\ (ctypes <> [] ->
      forall entity,
        entity ∈ ComponentStore.all_of store (ctypes ++ ctypes') ->
        entity ∈ ComponentStore.all_of store ctypes).
Proof.
  repeat apply conj.
  - reflexivity.
  - apply NoDup_all_of.
  - intros Hsame. apply NoDup_Permutation; [apply NoDup_all_of..|].
    intros entity. rewrite !elem_of_all_of.
    assert (ctypes <> [] <-> ctypes' <> []) as Hnil.
    { destruct ctypes as [|c l], ctypes' as [|c' l']; try done.
      - exfalso. apply (elem_of_nil c'), Hsame, elem_of_cons. by left.
      - exfalso. apply (elem_of_nil c), Hsame, elem_of_cons. by left. }
    split; intros [Hne Hall]; (split; [tauto|]); intros ctype Hin;
      apply Hall, Hsame, Hin.
  - intros ctype Hin Hempty. apply elem_of_nil_inv. intros entity Hall.
    apply elem_of_all_of in Hall as [_ Hall]. specialize (Hall ctype Hin).
    rewrite Hempty in Hall. by apply elem_of_empty in Hall.
  - intros Hne entity. rewrite !elem_of_all_of. intros [_ Hall].
    split; [done|]. intros ctype Hin. apply Hall, elem_of_app. by left.
Qed.

(** [X] and [Y] of the store of three, asked for in both orders. *)
Lemma X12_two_orders_witness :
  ComponentStore.all_of store_of_three [Class "X"; Class "Y"]
  ≡ₚ ComponentStore.all_of store_of_three [Class "Y"; Class "X"; Class "Y"].
Proof.
  apply (X12_all_of_is_an_intersection store_of_three
           [Class "X"; Class "Y"] [Class "Y"; Class "X"; Class "Y"]).
  intros ctype. rewrite !elem_of_cons, !elem_of_nil. tauto.
Defined.

(** X13. [component(ctype)] returns the inner mapping of the type: its keys
    are the entities for which [has] is [True] and its values what [get]
    returns.  It never changes an answer of [get], [has] or
    [entities_with]; for a type the store knows it changes nothing at all,
    and for a type the store does not know it leaves an empty mapping
    registered under that type. *)
Theorem X13_component_returns_the_inner_mapping
    (self : ComponentStore.t) (ctype : ComponentType) :
  let after := fst (ComponentStore.component self ctype) in
  let mapping := snd (ComponentStore.component self ctype) in
  (forall entity,
      (is_Some (mapping !! entity)
       <-> ComponentStore.has self entity ctype = true)
      /\ default PyNone (mapping !! entity)
         = ComponentStore.get self entity ctype)
  /\ (forall entity other,
        ComponentStore.get after entity other
        = ComponentStore.get self entity other
        /\ ComponentStore.has after entity other
           = ComponentStore.has self entity other
        /\ ComponentStore.entities_with after other
           = ComponentStore.entities_with self other)
  /\ (is_Some (ComponentStore._by_component self !! ctype) -> after = self)
  /\ (ComponentStore._by_component self !! ctype = None ->
      mapping = ∅
      /\ ComponentStore._by_component after
         = <[ctype := ∅]> (ComponentStore._by_component self)).
Proof.
  intros after mapping. subst after mapping.
  unfold ComponentStore.component, setdefault.
  destruct (ComponentStore._by_component self !! ctype) as [entities|] eqn:Hc;
    simpl.
  - repeat apply conj.
    + intros entity. unfold ComponentStore.has, ComponentStore.get.
      rewrite Hc; simpl. by rewrite bool_decide_eq_true.
    + by destruct self.
    + intros _. by destruct self.
    + done.
  - repeat apply conj.
    + intros entity. unfold ComponentStore.has, ComponentStore.get.
      rewrite Hc; simpl. by rewrite bool_decide_eq_true.
    + intros entity other.
      unfold ComponentStore.get, ComponentStore.has,
        ComponentStore.entities_with; simpl.
      destruct (decide (other = ctype)) as [->|Hne].
      * by rewrite lookup_insert_eq, Hc.
      * by rewrite lookup_insert_ne.
    + by intros [].
    + done.
Qed.

(** The mapping of [Y] in the store of three, and of an unknown type. *)
Lemma X13_component_witness :
  fst (ComponentStore.component store_of_three (Class "Y")) = store_of_three
  /\ snd (ComponentStore.component store_of_three (Class "Z")) = ∅.
Proof.
  split.
  - apply (X13_component_returns_the_inner_mapping store_of_three (Class "Y")).
    vm_compute. eauto.
  - apply (X13_component_returns_the_inner_mapping store_of_three (Class "Z")).
    vm_compute. reflexivity.
Defined.

(** ** World: queries on entities whose component is missing or [None] *)

Section ViewMore.
Implicit Types (w : World.t) (entity : Z) (ctypes : list ComponentType).

Lemma fetch_raises w entity ctypes ctype :
  ctype ∈ ctypes ->
  ComponentStore.get (World._store w) entity ctype = PyNone ->
  World.fetch w entity ctypes = Raised ComponentNotFound.
Proof.
  intros Hin Hnone.
  induction ctypes as [|c rest IH]; [by apply elem_of_nil in Hin|].
  simpl. destruct (decide _) as [|Hsome]; [done|].
  apply elem_of_cons in Hin as [->|Hin]; [done|].
  by rewrite IH.
Qed.

Lemma drain_raises w ctypes (remaining : list Z) entity :
  entity ∈ remaining ->
  World.fetch w entity ctypes = Raised ComponentNotFound ->
  snd (World.drain w ctypes remaining) = Raised ComponentNotFound.
Proof.
  intros Hin Hraise.
  induction remaining as [|e rest IH]; [by apply elem_of_nil in Hin|].
  simpl. destruct (fetch_cases w e ctypes) as [Hret|Hexc]; rewrite ?Hexc;
    [|done].
  apply elem_of_cons in Hin as [->|Hin].
  - by rewrite Hraise.
  - rewrite Hret. specialize (IH Hin).
    by destruct (World.drain w ctypes rest).
Qed.

End ViewMore.

(** X14. [None] as a component.  On an alive entity without a component of
    type [NoneType], [add_component(E, None)] returns; afterwards
    [has_component(E, NoneType)] is [True], yet [get_component] returns
    [None], [require_component] raises [ComponentNotFound], and consuming
    [view(NoneType)] ends with [ComponentNotFound]. *)
Theorem X14_none_is_stored_but_never_found (w : World.t) (E : Z) :
  World.is_alive w E = true ->
  ComponentStore.has (World._store w) E NoneType = false ->
  let after := fst (World.add_component w E PyNone) in
  snd (World.add_component w E PyNone) = Returned tt
  /\ World.has_component after E NoneType = (after, Returned true)
  /\ World.get_component after E NoneType = (after, Returned PyNone)
  /\ World.require_component after E NoneType
     = (after, Raised ComponentNotFound)
  /\ snd (World.consume after
            (World.view after NoneType None None None None []))
     = Raised ComponentNotFound.
Proof.
  intros Halive Hhas after.
  assert (~ ComponentStore.in_store (World._store w) E (type PyNone)) as Hout.
  { rewrite <- has_in_store. simpl. by rewrite Hhas. }
  assert (World.add_component w E PyNone
          = (World.set_store w
               (fst (ComponentStore.upsert (World._store w) E PyNone)),
             Returned tt)) as Hadd.
  { unfold World.add_component.
    rewrite (require_alive_of_alive w E Halive), (add_returns _ _ _ Hout).
    pose proof (upsert_returns (World._store w) E PyNone) as Hret.
    destruct (ComponentStore.upsert _ _ _); simpl in *. by rewrite Hret. }
  subst after. rewrite Hadd. simpl.
  set (after := World.set_store w _).
  assert (World.is_alive after E = true) as Halive' by done.
  assert (ComponentStore.instance_at (World._store after) E NoneType
          = Some PyNone) as Hat.
  { unfold after; simpl.
    rewrite (instance_at_upsert (World._store w) E PyNone E NoneType).
    by rewrite decide_True. }
  assert (ComponentStore.get (World._store after) E NoneType = PyNone) as Hget.
  { by rewrite get_instance_at, Hat. }
  unfold World.has_component, World.get_component, World.require_component.
  rewrite (require_alive_of_alive after E Halive'), Hget.
  repeat apply conj; try done.
  - do 2 f_equal. rewrite has_instance_at, Hat.
    apply bool_decide_eq_true. eauto.
  - change (snd (World.drain after [NoneType]
                   (ComponentStore.all_of (World._store after) [NoneType]))
            = Raised ComponentNotFound).
    apply (drain_raises after [NoneType] _ E).
    + apply elem_of_all_of. split; [done|].
      intros ctype ->%list_elem_of_singleton.
      apply entities_with_index. unfold after; simpl.
      apply in_component_index_upsert. by left.
    + apply (fetch_raises after E [NoneType] NoneType); [|done].
      by apply list_elem_of_singleton.
Qed.

(** Entity 2 of the world of the examples is given [None]. *)
Lemma X14_none_component_witness :
  World.require_component
    (fst (World.add_component world_with_two_entities 2 PyNone)) 2 NoneType
  = (fst (World.add_component world_with_two_entities 2 PyNone),
     Raised ComponentNotFound).
Proof.
  apply (X14_none_is_stored_but_never_found world_with_two_entities 2);
    vm_compute; reflexivity.
Defined.

(** X15. Removing a matched component while a view is being consumed.  If
    [remove_component(E, C)] returns for one of the view's types [C] while
    the generator is suspended with [E] still to come as its next entity,
    the next [next()] raises [ComponentNotFound] instead of yielding [E],
    the entities after [E] are never yielded, and every later [next()]
    reports the end of the sequence. *)
Theorem X15_removing_a_matched_component_ends_the_view
    (w later : World.t) (E : Z) (C : ComponentType)
    (ctypes : list ComponentType) (remaining : list Z) :
  C ∈ ctypes ->
  snd (World.remove_component w E C) = Returned tt ->
  let w' := fst (World.remove_component w E C) in
  World.next w' (Suspended ctypes (E :: remaining))
  = (Finished, Raised ComponentNotFound)
  /\ World.next later Finished = (Finished, Returned None)
  /\ World.consume w' (Suspended ctypes (E :: remaining))
     = ([], Raised ComponentNotFound).
Proof.
  intros HC Hret w'.
  assert (ComponentStore.get (World._store w') E C = PyNone) as Hgone.
  { subst w'. revert Hret. unfold World.remove_component.
    destruct (World._require_alive w E); [|done].
    destruct (decide (ComponentStore.in_store (World._store w) E C))
      as [Hin|Hout].
    - pose proof (instance_at_remove (World._store w) E C E C Hin) as Hat.
      destruct (ComponentStore.remove _ _ _) as [store out]; simpl in *.
      intros _. rewrite get_instance_at, Hat. by rewrite decide_True.
    - by rewrite (remove_raises _ _ _ Hout). }
  pose proof (fetch_raises w' E ctypes C HC Hgone) as Hfetch.
  repeat apply conj; simpl; by rewrite ?Hfetch.
Qed.

(** The view of [Position] and [Velocity] is about to yield entity 1 of the
    world of the examples when its [Velocity] is removed. *)
Lemma X15_removed_velocity_witness :
  World.next
    (fst (World.remove_component world_with_two_entities 1 (Class "Velocity")))
    (Suspended [Class "Position"; Class "Velocity"] [1])
  = (Finished, Raised ComponentNotFound).
Proof.
  apply (X15_removing_a_matched_component_ends_the_view
           world_with_two_entities World.__init__ 1 (Class "Velocity")
           [Class "Position"; Class "Velocity"] []).
  - apply elem_of_cons. right. apply elem_of_cons. by left.
  - vm_compute. reflexivity.
Defined.

(** ** Resources: [put], [get], [try_get], [remove], [clear] *)

(** X16. The registry keeps one resource per type, the last one put.  After
    [put(r)], [get(type(r))] returns [r] and [try_get(type(r))] returns [r];
    the answers for every other type are unchanged; a second [put] of the
    same type leaves exactly the registry the second [put] alone leaves.  A
    type never put, or any type after [clear], makes [get] raise
    [KeyError] and [try_get] return [None]. *)
Theorem X16_last_put_wins_per_type
    (self : Resources.t) (r r' : ComponentInstance) (typ : ComponentType) :
  Resources.get (Resources.put self r) (type r) = Returned r
  /\ Resources.try_get (Resources.put self r) (type r) = r
  /\ (typ <> type r ->
      Resources.get (Resources.put self r) typ = Resources.get self typ
      /\ Resources.try_get (Resources.put self r) typ
         = Resources.try_get self typ)
  /\ (type r' = type r ->
      Resources.put (Resources.put self r') r = Resources.put self r)
  /\ Resources.get Resources.__init__ typ = Raised KeyError
  /\ Resources.try_get Resources.__init__ typ = PyNone
  /\ Resources.get (Resources.clear self) typ = Raised KeyError
  /\ Resources.try_get (Resources.clear self) typ = PyNone.
Proof.
  unfold Resources.get, Resources.try_get, Resources.put, Resources.clear.
  simpl. rewrite lookup_insert_eq, lookup_empty. repeat apply conj; try done.
  - intros Hne. by rewrite lookup_insert_ne.
  - intros ->. by rewrite insert_insert_eq.
Qed.

(** Two clocks put into a new registry. *)
Lemma X16_last_put_witness :
  Resources.put (Resources.put Resources.__init__ (Object "Clock" [1]))
    (Object "Clock" [2])
  = Resources.put Resources.__init__ (Object "Clock" [2]).
Proof.
  pose proof (X16_last_put_wins_per_type Resources.__init__
                (Object "Clock" [2]) (Object "Clock" [1]) NoneType)
    as (_ & _ & _ & Hlast & _).
  by apply Hlast.
Defined.

(** X17. [remove(typ)] always leaves the type without a resource: afterwards
    [get(typ)] raises [KeyError] and [try_get(typ)] returns [None], while
    the other types keep their resources.  It returns [True] exactly when
    the resource it took out was not [None]: for a type that holds nothing
    it returns [False] and leaves the registry as it was, and a stored
    [None] is taken out although [False] is returned. *)
Theorem X17_remove_reports_a_value_that_is_not_none
    (self : Resources.t) (typ other : ComponentType) :
  let after := fst (Resources.remove self typ) in
  Resources.get after typ = Raised KeyError
  /\ Resources.try_get after typ = PyNone
  /\ (other <> typ ->
      Resources.get after other = Resources.get self other)
  /\ (snd (Resources.remove self typ) = true
      <-> Resources.try_get self typ <> PyNone)
  /\ (Resources.get self typ = Raised KeyError ->
      Resources.remove self typ = (self, false))
  /\ snd (Resources.remove after typ) = false
  /\ (let stored := Resources.put self PyNone in
      Resources.get stored NoneType = Returned PyNone
      /\ snd (Resources.remove stored NoneType) = false
      /\ Resources.get (fst (Resources.remove stored NoneType)) NoneType
         = Raised KeyError).
Proof.
  unfold Resources.get, Resources.try_get, Resources.remove, Resources.put.
  simpl. rewrite !lookup_delete_eq, !lookup_insert_eq.
  repeat apply conj; try done.
  - intros Hne. by rewrite lookup_delete_ne.
  - by intros Hsome%bool_decide_eq_true.
  - intros Hsome. by apply bool_decide_eq_true.
  - destruct (Resources._data self !! typ) eqn:Hd; [by intros [=]|].
    intros _. simpl. rewrite delete_id by done. by destruct self.
Qed.

(** A clock is put and removed. *)
Lemma X17_remove_clock_witness :
  Resources.get
    (fst (Resources.remove
            (Resources.put Resources.__init__ (Object "Clock" [1]))
            (Class "Clock")))
    (Class "Velocity")
  = Resources.get (Resources.put Resources.__init__ (Object "Clock" [1]))
      (Class "Velocity").
Proof.
  pose proof (X17_remove_reports_a_value_that_is_not_none
                (Resources.put Resources.__init__ (Object "Clock" [1]))
                (Class "Clock") (Class "Velocity"))
    as (_ & _ & Hother & _).
  by apply Hother.
Defined.

(** ** Scheduler: [remove], and every sequence of calls *)

Section SchedulerMore.
Implicit Types (sys : System) (l : list System) (sch : Scheduler.t).

Lemma elem_of_list_remove sys l x : x ∈ list_remove sys l -> x ∈ l.
Proof.
  induction l as [|y rest IH]; simpl; [done|].
  destruct (decide (y = sys)) as [->|Hne].
  - intros Hin. apply elem_of_cons. by right.
  - intros [->|Hin]%elem_of_cons; apply elem_of_cons; [by left|right; auto].
Qed.

Lemma list_remove_absent sys l : sys ∉ l -> list_remove sys l = l.
Proof.
  induction l as [|y rest IH]; simpl; [done|].
  intros Hout. rewrite decide_False.
  - f_equal. apply IH. intros Hin. apply Hout, elem_of_cons. by right.
  - intros ->. apply Hout, elem_of_cons. by left.
Qed.

Lemma list_remove_perm sys l : sys ∈ l -> sys :: list_remove sys l ≡ₚ l.
Proof.
  induction l as [|y rest IH]; simpl; [by intros ?%elem_of_nil|].
  destruct (decide (y = sys)) as [->|Hne]; [done|].
  intros [->|Hin]%elem_of_cons; [done|].
  rewrite perm_swap. by rewrite IH.
Qed.

Lemma list_remove_sublist sys l : sublist (list_remove sys l) l.
Proof.
  induction l as [|y rest IH]; simpl; [constructor|].
  destruct (decide (y = sys)); [by apply sublist_cons|by apply sublist_skip].
Qed.

Lemma list_remove_sorted sys l :
  by_priority_descending l -> by_priority_descending (list_remove sys l).
Proof.
  unfold by_priority_descending.
  induction l as [|y rest IH]; simpl; [done|].
  intros [Hrest Hall]%StronglySorted_inv.
  destruct (decide (y = sys)); [done|].
  constructor; [by apply IH|].
  rewrite Forall_forall in Hall. apply Forall_forall.
  intros x Hx%elem_of_list_remove. by apply Hall.
Qed.

Lemma scheduler_inv_init : scheduler_inv Scheduler.__init__.
Proof.
  split; simpl; [constructor|]. split; [done|by intros []].
Qed.

Lemma scheduler_inv_op sch (op : SchedulerOp) :
  scheduler_inv sch -> scheduler_inv (run_scheduler_op sch op).
Proof.
  intros [Hsorted Hflag]. destruct op as [sys|sys| | |dt]; simpl.
  - split; [apply sort_by_priority_reverse_sorted|done].
  - unfold Scheduler.remove. destruct (decide _); simpl; [|done].
    split; [by apply list_remove_sorted|done].
  - split; [done|]. simpl. split; eauto.
  - split; [done|]. simpl. split; [done|by intros []].
  - done.
Qed.

Lemma scheduler_inv_ops sch (ops : list SchedulerOp) :
  scheduler_inv sch -> scheduler_inv (run_scheduler_ops sch ops).
Proof.
  revert sch. induction ops as [|op ops IH]; intros sch Hinv; [done|].
  simpl. by apply IH, scheduler_inv_op.
Qed.

Lemma hook_guard sch :
  scheduler_inv sch ->
  Scheduler._started sch && bool_decide (is_Some (Scheduler._world_ref sch))
  = Scheduler._started sch.
Proof.
  intros [_ Hflag]. destruct (Scheduler._started sch); [|done].
  simpl. apply bool_decide_eq_true, Hflag. done.
Qed.

End SchedulerMore.

(** X18. After every sequence of [add], [remove], [start], [stop] and
    [update] calls on a new scheduler the systems are held in descending
    priority order, so [update] never runs a system before one of higher
    priority, and the scheduler holds a world exactly while it is started:
    [add] then calls the new system's start hook once if the scheduler is
    started and calls nothing otherwise, and [remove] of a held system does
    the same with its stop hook. *)
Theorem X18_scheduler_stays_sorted
    (ops : list SchedulerOp) (system : System) :
  let sch := run_scheduler_ops Scheduler.__init__ ops in
  by_priority_descending (Scheduler._systems sch)
  /\ (Scheduler._started sch = true <-> is_Some (Scheduler._world_ref sch))
  /\ snd (Scheduler.add sch system)
     = (if Scheduler._started sch then [CallStart system] else [])
  /\ (system ∈ Scheduler._systems sch ->
      snd (fst (Scheduler.remove sch system))
      = if Scheduler._started sch then [CallStop system] else []).
Proof.
  intros sch.
  pose proof (scheduler_inv_ops Scheduler.__init__ ops scheduler_inv_init)
    as Hinv.
  fold sch in Hinv. pose proof (hook_guard sch Hinv) as Hguard.
  destruct Hinv as [Hsorted Hflag].
  repeat apply conj; try done.
  - by apply Hflag.
  - by apply Hflag.
  - simpl. by rewrite Hguard.
  - intros Hin. unfold Scheduler.remove. rewrite decide_True by done.
    simpl. by rewrite Hguard.
Qed.

(** A system is removed from a started scheduler that holds two. *)
Lemma X18_remove_from_started_witness :
  snd (fst (Scheduler.remove
              (run_scheduler_ops Scheduler.__init__
                 [SchedAdd (MkSystem 0 1); SchedAdd (MkSystem 1 7);
                  SchedStart])
              (MkSystem 0 1)))
  = [CallStop (MkSystem 0 1)].
Proof.
  apply (X18_scheduler_stays_sorted
           [SchedAdd (MkSystem 0 1); SchedAdd (MkSystem 1 7); SchedStart]
           (MkSystem 0 1)).
  apply elem_of_cons. right. apply elem_of_cons. by left.
Defined.

(** X19. [remove] takes out one registration and nothing else.  For a
    system the scheduler does not hold it returns [False], calls no hook and
    leaves the scheduler as it was.  For a held system it returns [True];
    the list before is the list after plus that one system, so a system
    added twice is still held once; the remaining systems keep their
    relative order, and a list in priority order stays in priority order;
    the started flag and the held world are not touched. *)
Theorem X19_remove_drops_one_registration
    (sch : Scheduler.t) (system : System) :
  let after := fst (fst (Scheduler.remove sch system)) in
  (system ∉ Scheduler._systems sch ->
   Scheduler.remove sch system = (sch, [], false))
  /\ (system ∈ Scheduler._systems sch ->
      snd (Scheduler.remove sch system) = true
      /\ system :: Scheduler._systems after ≡ₚ Scheduler._systems sch)
  /\ sublist (Scheduler._systems after) (Scheduler._systems sch)
  /\ (by_priority_descending (Scheduler._systems sch) ->
      by_priority_descending (Scheduler._systems after))
  /\ Scheduler._started after = Scheduler._started sch
  /\ Scheduler._world_ref after = Scheduler._world_ref sch.
Proof.
  intros after. subst after. unfold Scheduler.remove.
  destruct (decide (system ∈ Scheduler._systems sch)) as [Hin|Hout]; simpl.
  - repeat apply conj; try done.
    + intros _. split; [done|]. by apply list_remove_perm.
    + apply list_remove_sublist.
    + apply list_remove_sorted.
  - repeat apply conj; try done.
Qed.

(** The same system was added twice; one registration is removed. *)
Lemma X19_added_twice_witness :
  snd (Scheduler.remove
         (add_all Scheduler.__init__ [MkSystem 0 1; MkSystem 0 1])
         (MkSystem 0 1)) = true
  /\ MkSystem 0 1
     :: Scheduler._systems
          (fst (fst (Scheduler.remove
                       (add_all Scheduler.__init__
                          [MkSystem 0 1; MkSystem 0 1])
                       (MkSystem 0 1))))
     ≡ₚ Scheduler._systems
          (add_all Scheduler.__init__ [MkSystem 0 1; MkSystem 0 1]).
Proof.
  apply (X19_remove_drops_one_registration
           (add_all Scheduler.__init__ [MkSystem 0 1; MkSystem 0 1])
           (MkSystem 0 1)).
  apply elem_of_cons. by left.
Defined.

(** ** World: what its methods keep between them *)

Section WorldMore.
Implicit Types (w : World.t) (store : ComponentStore.t) (entity : Z).

Local Ltac split_world_inv :=
  unfold world_inv; (split; [|split; [|split; [|split; [|split]]]]); simpl.

Lemma instance_at_remove_all_for_entity store entity entity' ctype :
  ComponentStore.consistent store ->
  ComponentStore.instance_at
    (fst (ComponentStore.remove_all_for_entity store entity)) entity' ctype
  = if decide (entity' = entity) then None
    else ComponentStore.instance_at store entity' ctype.
Proof.
  intros Hcons. unfold ComponentStore.remove_all_for_entity.
  set (ctypes := elements _).
  rewrite instance_at_remove_each; [|apply NoDup_elements|].
  2:{ intros c Hin%elem_of_elements.
      destruct (Hcons entity c) as [Hstore Hindex].
      apply Hstore, Hindex, Hin. }
  destruct (decide (entity' = entity)) as [->|Hne].
  - destruct (decide (entity = entity /\ ctype ∈ ctypes)) as [|Hn]; [done|].
    destruct (ComponentStore.instance_at store entity ctype) eqn:Hc; [|done].
    exfalso. apply Hn. split; [done|]. apply elem_of_elements.
    destruct (Hcons entity ctype) as [Hstore Hindex].
    apply Hindex, Hstore. unfold ComponentStore.in_store. by rewrite Hc.
  - by rewrite decide_False by tauto.
Qed.

Lemma no_empty_entries_clear_each store (es : list Z) :
  no_empty_entries store -> no_empty_entries (fst (World.clear_each store es)).
Proof.
  revert store. induction es as [|e rest IH]; intros store Hne; [done|].
  simpl.
  pose proof (no_empty_entries_remove_each store e
                (elements (default ∅
                   (ComponentStore._index_by_entity store !! e))) 0 Hne)
    as Hstep.
  fold (ComponentStore.remove_all_for_entity store e) in Hstep.
  destruct (ComponentStore.remove_all_for_entity store e)
    as [store' [n|exc]]; simpl in *; [by apply IH|done].
Qed.

Lemma world_inv_init : world_inv World.__init__.
Proof.
  split_world_inv; try done; try exact EntityManager.reachable_init;
    try exact consistent_init; try exact no_empty_entries_init;
    try exact scheduler_inv_init.
  intros entity ctype [x Hx].
  unfold ComponentStore.instance_at in Hx; simpl in Hx.
  rewrite lookup_empty in Hx; simpl in Hx. by rewrite lookup_empty in Hx.
Qed.

Lemma world_inv_start w : world_inv w -> world_inv (fst (World.start w)).
Proof.
  intros Hinv. unfold World.start.
  destruct (World._started w) eqn:Hs; simpl; [done|].
  destruct Hinv as (Hem & Hcons & Hne & Hown & Hsch & Hflag).
  split_world_inv; try done.
  apply (scheduler_inv_op _ SchedStart Hsch).
Qed.

Lemma world_inv_stop w : world_inv w -> world_inv (fst (World.stop w)).
Proof.
  intros Hinv. unfold World.stop.
  destruct (World._started w) eqn:Hs; simpl; [|done].
  destruct Hinv as (Hem & Hcons & Hne & Hown & Hsch & Hflag).
  split_world_inv; try done.
  apply (scheduler_inv_op _ SchedStop Hsch).
Qed.

Lemma world_inv_update w dt : world_inv w -> world_inv (fst (World.update w dt)).
Proof. intros (? & ? & ? & ? & ? & ?). by split_world_inv. Qed.

Lemma world_inv_add_system w sys :
  world_inv w -> world_inv (fst (World.add_system w sys)).
Proof.
  intros (Hem & Hcons & Hne & Hown & Hsch & Hflag).
  split_world_inv; try done.
  apply (scheduler_inv_op _ (SchedAdd sys) Hsch).
Qed.

Lemma world_inv_remove_system w sys :
  world_inv w -> world_inv (fst (fst (World.remove_system w sys))).
Proof.
  intros (Hem & Hcons & Hne & Hown & Hsch & Hflag).
  pose proof (scheduler_inv_op _ (SchedRemove sys) Hsch) as Hsch'.
  unfold World.remove_system. simpl in Hsch'.
  assert (Scheduler._started (fst (fst (Scheduler.remove
            (World._scheduler w) sys)))
          = Scheduler._started (World._scheduler w)) as Hsame.
  { unfold Scheduler.remove. by destruct (decide _). }
  destruct (Scheduler.remove (World._scheduler w) sys) as [[sch calls] found].
  simpl in *. split_world_inv; try done. simpl. by rewrite Hsame.
Qed.

Lemma world_inv_create_entity w :
  world_inv w -> world_inv (fst (World.create_entity w)).
Proof.
  intros (Hem & Hcons & Hne & Hown & Hsch & Hflag).
  unfold World.create_entity.
  pose proof (EntityManager.reachable_create _ Hem) as Hem'.
  pose proof (proj1 (create_result (World.entities w))) as Halive.
  destruct (EntityManager.create (World.entities w)) as [em eid].
  simpl in *. split_world_inv; try done.
  intros entity ctype Hin. rewrite Halive. apply elem_of_union. right.
  by apply (Hown entity ctype).
Qed.

Lemma world_inv_destroy_entity w entity :
  world_inv w -> world_inv (fst (World.destroy_entity w entity)).
Proof.
  intros (Hem & Hcons & Hne & Hown & Hsch & Hflag).
  unfold World.destroy_entity.
  pose proof (EntityManager.reachable_destroy _ entity Hem) as Hem'.
  unfold EntityManager.destroy in *.
  destruct (decide (entity ∈ EntityManager._alive (World.entities w)))
    as [Halive|Hdead]; simpl in *; [|by split_world_inv].
  pose proof (consistent_remove_all_for_entity _ entity Hcons) as Hcons'.
  pose proof (no_empty_entries_remove_each (World._store w) entity
                (elements (default ∅
                   (ComponentStore._index_by_entity (World._store w)
                      !! entity))) 0 Hne) as Hne'.
  fold (ComponentStore.remove_all_for_entity (World._store w) entity) in Hne'.
  pose proof (fun e c =>
                instance_at_remove_all_for_entity (World._store w) entity e c
                  Hcons) as Hat.
  destruct (ComponentStore.remove_all_for_entity (World._store w) entity)
    as [store [n|exc]]; simpl in *.
  all: split_world_inv; try done.
  all: intros e c [x Hx]; rewrite Hat in Hx.
  all: destruct (decide (e = entity)) as [->|Hother]; [done|].
  all: apply elem_of_difference; split;
    [apply (Hown e c); by exists x|by rewrite elem_of_singleton].
Qed.

Lemma world_inv_upsert_component w entity component :
  world_inv w -> world_inv (fst (World.upsert_component w entity component)).
Proof.
  intros (Hem & Hcons & Hne & Hown & Hsch & Hflag).
  unfold World.upsert_component, World._require_alive,
    EntityManager.is_alive.
  destruct (decide (entity ∈ EntityManager._alive (World.entities w)))
    as [Halive|Hdead].
  - rewrite bool_decide_eq_true_2 by done. simpl.
    pose proof (consistent_upsert _ entity component Hcons) as Hcons'.
    pose proof (no_empty_entries_upsert _ entity component Hne) as Hne'.
    pose proof (fun e c =>
                  in_store_upsert (World._store w) entity component e c)
      as Hin.
    destruct (ComponentStore.upsert (World._store w) entity component)
      as [store out]; simpl in *.
    split_world_inv; try done.
    intros e c [[-> _]|Hold]%Hin; [done|]. by apply (Hown e c).
  - rewrite bool_decide_eq_false_2 by done. simpl. by split_world_inv.
Qed.

Lemma world_inv_add_component w entity component :
  world_inv w -> world_inv (fst (World.add_component w entity component)).
Proof.
  intros Hinv.
  pose proof (world_inv_upsert_component w entity component Hinv) as Hup.
  revert Hup. unfold World.add_component, World.upsert_component.
  destruct (World._require_alive w entity); [|done].
  destruct (add_cases (World._store w) entity component)
    as [[_ ->]|[_ ->]]; [|done].
  intros _. simpl. destruct Hinv as (? & ? & ? & ? & ? & ?).
  by split_world_inv.
Qed.

Lemma world_inv_remove_component w entity ctype :
  world_inv w -> world_inv (fst (World.remove_component w entity ctype)).
Proof.
  intros (Hem & Hcons & Hne & Hown & Hsch & Hflag).
  unfold World.remove_component.
  destruct (World._require_alive w entity); [|by split_world_inv].
  pose proof (consistent_remove _ entity ctype Hcons) as Hcons'.
  pose proof (no_empty_entries_remove _ entity ctype Hne) as Hne'.
  destruct (decide (ComponentStore.in_store (World._store w) entity ctype))
    as [Hin|Hout].
  - pose proof (fun e c =>
                  in_store_remove (World._store w) entity ctype e c Hin)
      as Hleft.
    destruct (ComponentStore.remove (World._store w) entity ctype)
      as [store out]; simpl in *.
    split_world_inv; try done.
    intros e c [_ Hold]%Hleft. by apply (Hown e c).
  - rewrite (remove_raises _ _ _ Hout). simpl. by split_world_inv.
Qed.

Lemma world_inv_clear w : world_inv w -> world_inv (fst (fst (World.clear w))).
Proof.
  intros Hinv. pose proof (world_inv_stop w Hinv) as Hstop.
  destruct Hinv as (_ & Hcons & _).
  destruct (clear_returns w Hcons) as [Hret Hstore].
  revert Hret Hstore. unfold World.clear.
  destruct (World.stop w) as [w' calls]; simpl in *.
  destruct Hstop as (Hem & Hcons' & Hne & Hown & Hsch & Hflag).
  destruct (World.clear_each _ _) as [store [[]|exc]]; simpl; [|done].
  intros _ _.
  split_world_inv; try done; try exact consistent_init;
    try exact no_empty_entries_init.
  intros entity ctype [x Hx].
  unfold ComponentStore.instance_at in Hx; simpl in Hx.
  rewrite lookup_empty in Hx; simpl in Hx. by rewrite lookup_empty in Hx.
Qed.

(** Every world reached through the methods of [World] satisfies
    [world_inv]. *)
Lemma reachable_world_inv w : World.reachable w -> world_inv w.
Proof.
  induction 1;
    eauto using world_inv_init, world_inv_start, world_inv_stop,
      world_inv_update, world_inv_add_system, world_inv_remove_system,
      world_inv_create_entity, world_inv_destroy_entity,
      world_inv_add_component, world_inv_upsert_component,
      world_inv_remove_component, world_inv_clear.
Qed.

End WorldMore.

Section WorldEntityFacts.
Implicit Types (w : World.t) (entity : Z).

Lemma create_not_alive (self : EntityManager.t) :
  EntityManager.reachable self ->
  snd (EntityManager.create self) ∉ EntityManager._alive self.
Proof.
  intros Hreach.
  destruct (reachable_allocator_inv self Hreach) as (_ & Hrange & _ & Hdisj).
  destruct (create_result self) as [_ [Hpool|[_ Hnext]]].
  - intros Hin. by apply (Hdisj _ Hin).
  - intros Hin. rewrite Hnext in Hin.
    assert (1 <= EntityManager._next_id self < EntityManager._next_id self)
      by (apply Hrange; by left). lia.
Qed.

Lemma has_false_of_dead w entity ctype :
  world_inv w -> World.is_alive w entity = false ->
  ComponentStore.instance_at (World._store w) entity ctype = None.
Proof.
  intros (_ & _ & _ & Hown & _) Hdead%is_alive_false.
  destruct (ComponentStore.instance_at (World._store w) entity ctype)
    eqn:Hat; [|done].
  exfalso. apply Hdead, (Hown entity ctype).
  unfold ComponentStore.in_store. by rewrite Hat.
Qed.



End WorldEntityFacts.

(** X20. In every world reached through the methods of [World] the world's
    started flag is the scheduler's and the systems are in descending
    priority order.  On a started world [add_system] calls the new system's
    start hook twice, once from [Scheduler.add] and once more from
    [World.add_system] itself; on a world that is not started it calls no
    hook.  [remove_system] calls the stop hook of a held system once if the
    world is started, and for a system that is not held it returns [False]
    and changes nothing. *)
Theorem X20_hooks_called_by_add_and_remove_system
    (w : World.t) (system : System) :
  World.reachable w ->
  Scheduler._started (World._scheduler w) = World._started w
  /\ by_priority_descending (Scheduler._systems (World._scheduler w))
  /\ snd (World.add_system w system)
     = (if World._started w
        then [CallStart system; CallStart system] else [])
  /\ (system ∈ Scheduler._systems (World._scheduler w) ->
      snd (fst (World.remove_system w system))
      = (if World._started w then [CallStop system] else [])
      /\ snd (World.remove_system w system) = true)
  /\ (system ∉ Scheduler._systems (World._scheduler w) ->
      World.remove_system w system = (w, [], false)).
Proof.
  intros Hreach.
  destruct (reachable_world_inv w Hreach) as (_ & _ & _ & _ & Hsch & Hflag).
  pose proof (hook_guard _ Hsch) as Hguard. destruct Hsch as [Hsorted _].
  repeat apply conj; try done.
  - unfold World.add_system. simpl. rewrite Hguard, Hflag.
    by destruct (World._started w).
  - intros Hin. unfold World.remove_system, Scheduler.remove.
    rewrite decide_True by done. simpl. by rewrite Hguard, Hflag.
  - intros Hout. unfold World.remove_system, Scheduler.remove.
    rewrite decide_False by done. by destruct w.
Qed.

(** A second system is added to the started world of the examples. *)
Lemma X20_add_to_started_world_witness :
  snd (World.add_system started_world (MkSystem 1 3))
  = [CallStart (MkSystem 1 3); CallStart (MkSystem 1 3)].
Proof.
  pose proof (X20_hooks_called_by_add_and_remove_system started_world
                (MkSystem 1 3)) as Hhooks.
  destruct Hhooks as (_ & _ & Hadd & _); [|exact Hadd].
  apply World.reachable_start, World.reachable_add_system,
    World.reachable_init.
Defined.

(** X21. No component outlives its entity.  In every world reached through
    the methods of [World], an entity for which the store holds a component
    is alive; so for an entity that is not alive [get] returns [None] for
    every type, and every entity that [entities_with] yields is alive. *)
Theorem X21_every_stored_component_has_an_alive_entity (w : World.t) :
  World.reachable w ->
  (forall entity ctype,
      ComponentStore.has (World._store w) entity ctype = true ->
      World.is_alive w entity = true)
  /\ (forall entity ctype,
        World.is_alive w entity = false ->
        ComponentStore.get (World._store w) entity ctype = PyNone)
  /\ (forall ctypes entity,
        entity ∈ World.entities_with w ctypes ->
        World.is_alive w entity = true).
Proof.
  intros Hreach. pose proof (reachable_world_inv w Hreach) as Hinv.
  destruct Hinv as (Hem & Hcons & Hne & Hown & Hsch & Hflag).
  repeat apply conj.
  - intros entity ctype Hhas%has_in_store.
    apply is_alive_true. by apply (Hown entity ctype).
  - intros entity ctype Hdead%is_alive_false. rewrite get_instance_at.
    destruct (ComponentStore.instance_at (World._store w) entity ctype)
      eqn:Hat; [|done].
    exfalso. apply Hdead, (Hown entity ctype).
    unfold ComponentStore.in_store. by rewrite Hat.
  - intros ctypes entity [Hnil Hall]%elem_of_all_of.
    destruct ctypes as [|ctype rest]; [done|].
    apply is_alive_true, (Hown entity ctype).
    destruct (Hcons entity ctype) as [Hstore _]. apply Hstore.
    apply entities_with_index, Hall, elem_of_cons. by left.
Qed.

(** Entity 1 of the world of the examples is destroyed. *)
Lemma X21_destroyed_entity_witness :
  ComponentStore.get
    (World._store (fst (World.destroy_entity world_with_two_entities 1)))
    1 (Class "Position")
  = PyNone.
Proof.
  pose proof (X21_every_stored_component_has_an_alive_entity
                (fst (World.destroy_entity world_with_two_entities 1)))
    as Hdead.
  destruct Hdead as (_ & Hget & _).
  - apply World.reachable_destroy_entity, world_with_two_entities_reachable.
  - apply Hget. vm_compute. reflexivity.
Defined.

(** X22. [destroy_entity] on an alive entity of a world reached through the
    methods of [World] returns; afterwards the entity is not alive and
    carries no component, every other entity is as alive as before and
    keeps its components, and the id is the one the next [create_entity]
    returns, for an entity that starts without any component. *)
Theorem X22_destroy_entity_removes_entity_and_components
    (w : World.t) (E : Z) :
  World.reachable w ->
  World.is_alive w E = true ->
  let after := fst (World.destroy_entity w E) in
  let recycled := fst (World.create_entity after) in
  snd (World.destroy_entity w E) = Returned tt
  /\ World.is_alive after E = false
  /\ (forall ctype, ComponentStore.has (World._store after) E ctype = false)
  /\ (forall other ctype,
        other <> E ->
        World.is_alive after other = World.is_alive w other
        /\ ComponentStore.get (World._store after) other ctype
           = ComponentStore.get (World._store w) other ctype)
  /\ snd (World.create_entity after) = E
  /\ World.is_alive recycled E = true
  /\ (forall ctype,
        ComponentStore.has (World._store recycled) E ctype = false).
Proof.
  intros Hreach Halive after recycled.
  destruct (reachable_world_inv w Hreach) as (_ & Hcons & _).
  assert (World.destroy_entity w E
          = (World.set_store
               (World.set_entities w
                  (fst (EntityManager.destroy (World.entities w) E)))
               (fst (ComponentStore.remove_all_for_entity (World._store w) E)),
             Returned tt)) as Hdestroy.
  { unfold World.destroy_entity. unfold World.is_alive in Halive.
    rewrite (destroy_alive _ _ Halive). simpl.
    destruct (remove_all_for_entity_returns (World._store w) E Hcons)
      as [n Hret].
    destruct (ComponentStore.remove_all_for_entity (World._store w) E)
      as [store out]; simpl in *. by subst out. }
  subst recycled after. rewrite Hdestroy. simpl.
  unfold World.is_alive in *. simpl.
  rewrite (destroy_alive _ _ Halive). simpl.
  assert (forall e c,
             ComponentStore.has
               (fst (ComponentStore.remove_all_for_entity (World._store w) E))
               e c
             = if decide (e = E) then false
               else ComponentStore.has (World._store w) e c) as Hhas.
  { intros e c. rewrite !has_instance_at,
      instance_at_remove_all_for_entity by done.
    destruct (decide (e = E)); [|done].
    apply bool_decide_eq_false. by intros []. }
  unfold World.create_entity. simpl.
  erewrite create_recycles by (simpl; reflexivity). simpl.
  repeat apply conj; try done.
  - apply is_alive_false. simpl.
    rewrite elem_of_difference, elem_of_singleton. tauto.
  - intros ctype. rewrite Hhas. by rewrite decide_True.
  - intros other ctype Hne. split.
    + apply is_alive_ext. simpl.
      rewrite elem_of_difference, elem_of_singleton. tauto.
    + rewrite !get_instance_at, instance_at_remove_all_for_entity by done.
      by rewrite decide_False.
  - apply is_alive_true. simpl. apply elem_of_union. left.
    by apply elem_of_singleton.
  - intros ctype. rewrite Hhas. by rewrite decide_True.
Qed.

(** Entity 1 of the world of the examples is destroyed and its id reused. *)
Lemma X22_destroy_and_recycle_witness :
  snd (World.create_entity
         (fst (World.destroy_entity world_with_two_entities 1))) = 1.
Proof.
  apply (X22_destroy_entity_removes_entity_and_components
           world_with_two_entities 1).
  - apply world_with_two_entities_reachable.
  - vm_compute. reflexivity.
Defined.

(** X23. [create_entity] on a world reached through the methods of [World]
    returns a positive id that was not alive, makes it alive, leaves the
    store as it was, and the new entity carries no component: [has] is
    [False] for every type and no query yields it. *)
Theorem X23_created_entity_is_new_and_bare (w : World.t) :
  World.reachable w ->
  let eid := snd (World.create_entity w) in
  let after := fst (World.create_entity w) in
  World.is_alive w eid = false
  /\ World.is_alive after eid = true
  /\ World._store after = World._store w
  /\ (forall ctype,
        World.has_component after eid ctype = (after, Returned false))
  /\ (forall ctypes, eid ∉ World.entities_with after ctypes).
Proof.
  intros Hreach eid after.
  pose proof (reachable_world_inv w Hreach) as Hinv.
  pose proof (reachable_world_inv after
                (World.reachable_create_entity w Hreach)) as Hinv'.
  assert (World.is_alive w eid = false) as Hnew.
  { apply is_alive_false. subst eid. unfold World.create_entity.
    pose proof (create_not_alive (World.entities w) (proj1 Hinv)) as Hfresh.
    by destruct (EntityManager.create (World.entities w)). }
  assert (World._store after = World._store w) as Hstore.
  { subst after. unfold World.create_entity.
    by destruct (EntityManager.create (World.entities w)). }
  assert (World.is_alive after eid = true) as Halive.
  { apply is_alive_true. subst after eid. unfold World.create_entity.
    pose proof (proj1 (create_result (World.entities w))) as Hset.
    destruct (EntityManager.create (World.entities w)); simpl in *.
    rewrite Hset. apply elem_of_union. left. by apply elem_of_singleton. }
  assert (forall ctype,
             ComponentStore.instance_at (World._store after) eid ctype = None)
    as Hbare.
  { intros ctype. rewrite Hstore. by apply has_false_of_dead. }
  repeat apply conj; try done.
  - intros ctype. unfold World.has_component.
    rewrite (require_alive_of_alive after eid Halive).
    rewrite has_instance_at, Hbare. do 2 f_equal.
  - intros ctypes [Hnil Hall]%elem_of_all_of.
    destruct ctypes as [|ctype rest]; [done|].
    destruct Hinv' as (_ & Hcons & _).
    destruct (Hcons eid ctype) as [Hin _].
    assert (ComponentStore.in_store (World._store after) eid ctype) as [x Hx].
    { apply Hin, entities_with_index, Hall, elem_of_cons. by left. }
    by rewrite Hbare in Hx.
Qed.

(** The third entity of the world of the examples. *)
Lemma X23_third_entity_witness :
  World.is_alive world_with_two_entities
    (snd (World.create_entity world_with_two_entities)) = false.
Proof.
  apply (X23_created_entity_is_new_and_bare world_with_two_entities).
  apply world_with_two_entities_reachable.
Defined.


